(** * nmap_oui_update: a shallow embedding of [nmap_oui_update.py]

    The script refreshes nmap's MAC-prefix table from the IEEE registry:
    privilege check, backup, fetch, merge, install.  This file embeds the
    script function by function and proves properties of the merge loop,
    of the fetch validation and of the exit codes of [main].

    Conventions.
    - A Python [str] is a list of Unicode code points ([list N]).
    - A Python [int] is a [Z].
    - Paths are the script's constants glued to the program directory, so
      they are kept as Rocq strings and used as keys of the file store.
    - The file store holds every file by its decoded text: the script opens
      all its files with [encoding='utf-8'], and UTF-8 is injective, so two
      files hold the same bytes exactly when they hold the same text.  What
      text mode does on top of decoding (newline translation) is modelled. *)

From Stdlib Require Import ZArith NArith List Ascii String Bool Lia.
From stdpp Require Import base gmap strings list pretty.

Local Open Scope N_scope.

(** ** Text *)

Abbreviation str := (list N).

(** A literal of the script as a Python string. *)
Fixpoint text (s : string) : str :=
  match s with
  | EmptyString => []
  | String a s' => N_of_ascii a :: text s'
  end.

Definition TAB : N := 9.
Definition LF : N := 10.
Definition CR : N := 13.
Definition ESC : N := 27.
Definition SPACE : N := 32.

(** [prefix.startswith]: the comparison [in] makes at one position. *)
Fixpoint starts_with (p s : str) : bool :=
  match p, s with
  | [], _ => true
  | _ :: _, [] => false
  | a :: p', b :: s' => (a =? b) && starts_with p' s'
  end.

(** [needle in hay] on Python strings: a plain substring search. *)
Fixpoint str_in (needle hay : str) : bool :=
  starts_with needle hay ||
  match hay with
  | [] => false
  | _ :: hay' => str_in needle hay'
  end.

(** [s.split] at the line feed: one piece more than there are line feeds. *)
Fixpoint split_lf (s : str) : list str :=
  match s with
  | [] => [[]]
  | c :: s' =>
      if c =? LF then [] :: split_lf s'
      else match split_lf s' with
           | [] => [[c]]
           | l :: ls => (c :: l) :: ls
           end
  end.

(** [Py_UNICODE_ISSPACE]: the code points [str.strip()] removes. *)
Definition is_space (c : N) : bool :=
  ((9 <=? c) && (c <=? 13)) || ((28 <=? c) && (c <=? 32)) ||
  (c =? 133) || (c =? 160) || (c =? 5760) ||
  ((8192 <=? c) && (c <=? 8202)) || (c =? 8232) || (c =? 8233) ||
  (c =? 8239) || (c =? 8287) || (c =? 12288).

Fixpoint lstrip (s : str) : str :=
  match s with
  | [] => []
  | c :: s' => if is_space c then lstrip s' else s
  end.

(** [s.strip()] *)
Definition strip (s : str) : str := rev (lstrip (rev (lstrip s))).

(** ** The extraction pattern

    The pattern of [re.search] is, piece by piece: the anchor [^]; group 1,
    the class [0-9A-Fa-f] six times; a space with [+]; the literal
    [(base 16)], its parentheses escaped; two tabs; group 2, a dot with a
    star.  Without [re.MULTILINE] the anchor holds at position 0 only, so
    the search is a match at the start.  The pattern needs no backtracking:
    the character after the run of spaces has to be an opening parenthesis,
    so the greedy run is the only one that can succeed; the dot is every
    code point but the line feed, and the star is greedy. *)

(** The class [0-9A-Fa-f]. *)
Definition is_hex (c : N) : bool :=
  ((48 <=? c) && (c <=? 57)) || ((65 <=? c) && (c <=? 70)) ||
  ((97 <=? c) && (c <=? 102)).

(** The space with [+], one space already consumed: the rest of the run. *)
Fixpoint skip_spaces (s : str) : str :=
  match s with
  | c :: s' => if c =? SPACE then skip_spaces s' else s
  | [] => []
  end.

(** Group 2: the longest run without a line feed. *)
Fixpoint dot_star (s : str) : str :=
  match s with
  | c :: s' => if c =? LF then [] else c :: dot_star s'
  | [] => []
  end.

Definition marker : str := text "(base 16)".

(** [match.groups()] of the search, [None] when it finds nothing. *)
Definition re_search (line : str) : option (str * str) :=
  let oui := take 6 line in
  if (length oui =? 6)%nat && forallb is_hex oui then
    match drop 6 line with
    | c :: rest =>
        if c =? SPACE then
          let rest := skip_spaces rest in
          if starts_with (marker ++ [TAB; TAB]) rest
          then Some (oui, dot_star (drop (length (marker ++ [TAB; TAB])) rest))
          else None
        else None
    | [] => None
    end
  else None.

(** ** The world the script runs in *)

Inductive Exn : Type :=
  | AttributeError                    (* [None] has no attribute [groups] *)
  | FileNotFoundError (p : string)
  | IsADirectoryError (p : string)
  | PermissionError (p : string)      (* a path that cannot be opened for writing *)
  | FileExistsError (p : string)
  | SameFileError (p : string)
  | ConnectionError.

Inductive Result (A : Type) : Type :=
  | Ok (a : A)
  | Raise (e : Exn).
Arguments Ok {A} a.
Arguments Raise {A} e.

(** What the script does to the file system and to the network, in order. *)
Inductive Event : Type :=
  | EvIsdir (p : string)
  | EvMkdir (p : string)
  | EvCopy (src dst : string)
  | EvRead (p : string)
  | EvWrite (p : string)
  | EvGet (url : string).

Record World : Type := mkWorld {
  euid : Z;                       (* [os.geteuid()] *)
  program_dir : string;           (* the real path of the script's directory *)
  timestamp : string;             (* the clock, as [get_timestamp] formats it *)
  files : gmap string str;        (* regular files, by decoded text *)
  dirs : gset string;             (* directories *)
  unwritable : gset string;       (* paths no [open] for writing succeeds on *)
  http : option (Z * str);        (* status and text of the registry's answer,
                                     [None] when the request itself fails *)
  stdout : str;
  events : list Event
}.

Definition M (A : Type) : Type := World -> Result A * World.

Definition ret {A} (a : A) : M A := fun w => (Ok a, w).

Definition bind {A B} (m : M A) (k : A -> M B) : M B :=
  fun w =>
    match m w with
    | (Ok a, w') => k a w'
    | (Raise e, w') => (Raise e, w')
    end.

Definition raise {A} (e : Exn) : M A := fun w => (Raise e, w).

Definition run {A} (m : M A) (w : World) : Result A * World := m w.

#[global] Instance M_ret : MRet M := @ret.
#[global] Instance M_bind : MBind M := fun A B k m => bind m k.

Definition log (e : Event) (w : World) : World :=
  mkWorld (euid w) (program_dir w) (timestamp w) (files w) (dirs w)
          (unwritable w) (http w) (stdout w) (events w ++ [e]).

Definition emit (s : str) (w : World) : World :=
  mkWorld (euid w) (program_dir w) (timestamp w) (files w) (dirs w)
          (unwritable w) (http w) (stdout w ++ s) (events w).

Definition store (p : string) (s : str) (w : World) : World :=
  mkWorld (euid w) (program_dir w) (timestamp w) (<[p := s]> (files w)) (dirs w)
          (unwritable w) (http w) (stdout w) (events w).

Definition add_dir (p : string) (w : World) : World :=
  mkWorld (euid w) (program_dir w) (timestamp w) (files w) ({[p]} ∪ dirs w)
          (unwritable w) (http w) (stdout w) (events w).

(** [sys.stdout.write(s)] *)
Definition stdout_write (s : str) : M unit := fun w => (Ok tt, emit s w).

(** [print(s)] *)
Definition print (s : str) : M unit := stdout_write (s ++ [LF]).

(** [os.geteuid()] *)
Definition geteuid : M Z := fun w => (Ok (euid w), w).

(** [os.path.isdir(p)] *)
Definition isdir (p : string) : M bool :=
  fun w => (Ok (bool_decide (p ∈ dirs w)), log (EvIsdir p) w).

(** [os.mkdir(p)] *)
Definition mkdir (p : string) : M unit :=
  fun w =>
    let w := log (EvMkdir p) w in
    if bool_decide (p ∈ dirs w) || bool_decide (is_Some (files w !! p))
    then (Raise (FileExistsError p), w)
    else if bool_decide (p ∈ unwritable w) then (Raise (PermissionError p), w)
    else (Ok tt, add_dir p w).

(** What a file opened for reading yields, undecoded newlines included. *)
Definition open_read (p : string) (w : World) : Result str :=
  if bool_decide (p ∈ dirs w) then Raise (IsADirectoryError p)
  else match files w !! p with
       | Some s => Ok s
       | None => Raise (FileNotFoundError p)
       end.

(** Whether a file can be opened for writing. *)
Definition open_write (p : string) (w : World) : Result unit :=
  if bool_decide (p ∈ dirs w) then Raise (IsADirectoryError p)
  else if bool_decide (p ∈ unwritable w) then Raise (PermissionError p)
  else Ok tt.

(** Text mode on reading ([newline=None]): a carriage return, with the line
    feed after it when there is one, comes out as one line feed. *)
Fixpoint universal_newlines (s : str) : str :=
  match s with
  | [] => []
  | c :: s' =>
      if c =? CR then
        LF :: match s' with
              | d :: s'' =>
                  if d =? LF then universal_newlines s'' else universal_newlines s'
              | [] => []
              end
      else c :: universal_newlines s'
  end.

(** [with open(p, 'rt', encoding='utf-8') as fil: fil.read()] *)
Definition read_text (p : string) : M str :=
  fun w =>
    let w := log (EvRead p) w in
    match open_read p w with
    | Ok s => (Ok (universal_newlines s), w)
    | Raise e => (Raise e, w)
    end.

(** [with open(p, 'wt', encoding='utf-8') as fil: fil.write(s); fil.flush()].
    On writing, text mode turns a line feed into [os.linesep], which is the
    line feed itself on the systems that have [os.geteuid]. *)
Definition write_text (p : string) (s : str) : M unit :=
  fun w =>
    let w := log (EvWrite p) w in
    match open_write p w with
    | Ok _ => (Ok tt, store p s w)
    | Raise e => (Raise e, w)
    end.

(** [shutil.copyfile(src, dst)] *)
Definition copyfile (src dst : string) : M unit :=
  fun w =>
    let w := log (EvCopy src dst) w in
    if bool_decide (src = dst) then (Raise (SameFileError src), w)
    else match open_read src w with
         | Raise e => (Raise e, w)
         | Ok s =>
             match open_write dst w with
             | Raise e => (Raise e, w)
             | Ok _ => (Ok tt, store dst s w)
             end
         end.

(** [requests.get(url)]: the status code and the decoded text. *)
Definition requests_get (url : string) : M (Z * str) :=
  fun w =>
    let w := log (EvGet url) w in
    match http w with
    | Some res => (Ok res, w)
    | None => (Raise ConnectionError, w)
    end.

(** [os.path.join(a, b)] on a POSIX system. *)
Definition path_join (a b : string) : string :=
  match b with
  | String "/" _ => b
  | _ =>
      if bool_decide (a = EmptyString) then b
      else if String.eqb (substring (String.length a - 1) 1 a) "/" then (a +:+ b)
      else a +:+ "/" +:+ b
  end.

(** ** The script's constants *)

Definition IEEE_URL : string := "https://standards-oui.ieee.org/".
Definition NMAP_OUI : string := "/usr/share/nmap/nmap-mac-prefixes".
Definition OUI_DATA : string := "ieee_oui_data.txt".
Definition RED : str := ESC :: text "[31;1m".
Definition GRN : str := ESC :: text "[32;1m".
Definition YLW : str := ESC :: text "[33;1m".
Definition BLU : str := ESC :: text "[34;1m".
Definition NC : str := ESC :: text "[m".
Definition BANNER : str := text "
       _____ ______________  ______  ______
      / ___// ____/ ____/ / / / __ \/ ____/
      \__ \/ __/ / /   / / / / /_/ / __/
     ___/ / /___/ /___/ /_/ / _, _/ /___
    /____/_____/\____/\____/_/ |_/_____/

        ________  __________  _____
       /  _/ __ \/ ____/   | / ___/
       / // / / / __/ / /| | \__ \
     _/ // /_/ / /___/ ___ |___/ /
    /___/_____/_____/_/  |_/____/
".
Definition SCRIPT : str :=
  [LF] ++ text "  ---===[ NMAP OUI UPDATE SCRIPT V1.0 ]===---" ++ [LF].

(** [str(n)] inside an f-string. *)
Definition str_of_int (n : Z) : str := text (pretty n).

(** ** Print functions *)

Definition print_info (msg : str) (endline : str) : M unit :=
  stdout_write (text " [" ++ BLU ++ text "*" ++ NC ++ text "] " ++ msg ++ endline).

Definition print_success (msg : str) : M unit :=
  print (text " [" ++ GRN ++ text "+" ++ NC ++ text "] " ++ GRN ++ msg ++ NC).

Definition print_error (msg : str) : M unit :=
  print (text " [" ++ RED ++ text "-" ++ NC ++ text "] " ++ RED ++ text "ERROR:"
         ++ NC ++ text " " ++ msg).

(** ** Support functions *)

Definition is_root : M bool :=
  uid ← geteuid; mret (uid =? 0)%Z.

Definition get_root_program_path : M string :=
  fun w => (Ok (program_dir w), w).

Definition get_timestamp : M string :=
  fun w => (Ok (timestamp w), w).

Definition backup_nmap_oui_file : M string :=
  root ← get_root_program_path;
  let backup_dir := path_join root "backups" in
  present ← isdir backup_dir;
  (if negb present then
     print_info (text "Creating backup directory: " ++ BLU ++ text backup_dir ++ NC) [LF];;
     mkdir backup_dir
   else mret tt);;
  stamp ← get_timestamp;
  let backup_filename := "nmap-mac-prefixes." +:+ stamp in
  let dst := path_join backup_dir backup_filename in
  print_info (text "Creating backup of nmap-mac-prefixes: " ++ BLU
              ++ text backup_filename ++ NC) [LF];;
  copyfile NMAP_OUI dst;;
  mret dst.

Definition download_ieee_oui_file : M bool :=
  print_info (text "Downloading latest copy of OUI data from IEEE...") [LF];;
  root ← get_root_program_path;
  let dst := path_join root OUI_DATA in
  res ← requests_get IEEE_URL;
  let '(status_code, body) := res in
  if (status_code =? 200)%Z && str_in marker body then
    write_text dst body;;
    print_success (text "Downloaded to " ++ BLU ++ text dst ++ NC ++ text " ("
                   ++ str_of_int (Z.of_nat (length body)) ++ text " bytes)");;
    mret true
  else
    print_error (text "Got status code " ++ str_of_int status_code
                 ++ text " while downloading");;
    mret false.

(** [f"{oui} {org.strip()}\n"] *)
Definition record (oui org : str) : str :=
  oui ++ text " " ++ strip org ++ [LF].

(** The body of the loop of [parse_oui_file], on the loop's two variables. *)
Definition merge_line (line : str) (st : str * Z) : M (str * Z) :=
  let '(backup_data, new_count) := st in
  if str_in marker line then
    match re_search line with
    | None => raise AttributeError
    | Some (oui, org) =>
        if negb (str_in oui backup_data) then
          let backup_data := backup_data ++ record oui org in
          stdout_write (ESC :: text "[K");;
          print_info (text "Processing data: " ++ GRN ++ oui ++ text " " ++ BLU
                      ++ text "=> " ++ GRN ++ org ++ NC) [CR];;
          mret (backup_data, (new_count + 1)%Z)
        else mret (backup_data, new_count)
    end
  else mret (backup_data, new_count).

(** The [for] loop over the lines of the fetched document. *)
Fixpoint merge_lines (lines : list str) (st : str * Z) : M (str * Z) :=
  match lines with
  | [] => mret st
  | line :: lines' => st' ← merge_line line st; merge_lines lines' st'
  end.

Definition updated_name : string := "nmap-mac-prefixes_updated".

(** [parse_oui_file] up to the end of its loop: both files are read and
    the loop is run; the result is the loop's [backup_data] and
    [new_count]. *)
Definition merge_records (backup : string) : M (str * Z) :=
  print_info (text "Processing data: ") [CR];;
  root ← get_root_program_path;
  let oui_file := path_join root OUI_DATA in
  backup_data ← read_text backup;
  oui_data ← read_text oui_file;
  merge_lines (split_lf oui_data) (backup_data, 0%Z).

Definition parse_oui_file (backup : string) : M bool :=
  st ← merge_records backup;
  let '(backup_data, new_count) := st in
  stdout_write (ESC :: text "[K");;
  print_success (NC ++ text "Processing data: [" ++ GRN ++ text "DONE" ++ NC ++ text "]");;
  if negb (new_count =? 0)%Z then
    print_success (text "Found " ++ str_of_int new_count ++ text " new OUIs");;
    root ← get_root_program_path;
    let updated := path_join root updated_name in
    print_info (text "Writing new data to " ++ BLU ++ text updated ++ NC) [LF];;
    write_text updated backup_data;;
    mret true
  else
    print_info (text "No new records!") [LF];;
    mret false.

Definition apply_updated_file : M bool :=
  root ← get_root_program_path;
  let updated := path_join root updated_name in
  print_info (text "Copying " ++ GRN ++ text updated ++ NC ++ text " to " ++ BLU
              ++ text NMAP_OUI ++ NC) [LF];;
  copyfile updated NMAP_OUI;;
  mret true.

(** ** The orchestrator *)

Definition main : M Z :=
  print (RED ++ BANNER ++ YLW ++ SCRIPT ++ NC);;
  root ← is_root;
  if negb root then
    print_error (text "This script must be run as root!");;
    mret 1%Z
  else
    backup_copy ← backup_nmap_oui_file;
    fetched ← download_ieee_oui_file;
    if negb fetched then mret 2%Z
    else
      let finish : M Z := print_success (text "Done son!");; mret 0%Z in
      found ← parse_oui_file backup_copy;
      if (found : bool) then
        applied ← apply_updated_file;
        if negb applied then mret 4%Z else finish
      else finish.

(** [sys.exit(main())]: the exit status of the process.  An exception that
    nothing catches ends the interpreter with status 1. *)
Definition script (w : World) : Z * World :=
  match run main w with
  | (Ok code, w') => (code, w')
  | (Raise _, w') => (1%Z, w')
  end.

(** ** Lines of a text file

    The lines of a text as [fil.readlines()] yields them: every line keeps
    its line feed, and a last line need not have one. *)
Fixpoint readlines (s : str) : list str :=
  match s with
  | [] => []
  | c :: s' =>
      if c =? LF then [c] :: readlines s'
      else match readlines s' with
           | [] => [[c]]
           | l :: ls => (c :: l) :: ls
           end
  end.

(** The pairs the pattern extracts from the lines that carry the marker, in
    the order of the lines. *)
Fixpoint extracted (lines : list str) : list (str * str) :=
  match lines with
  | [] => []
  | line :: lines' =>
      if str_in marker line then
        match re_search line with
        | Some groups => groups :: extracted lines'
        | None => extracted lines'
        end
      else extracted lines'
  end.

(** The lines the loop appends for a list of extracted pairs. *)
Definition records (recs : list (str * str)) : str :=
  flat_map (fun r => record r.1 r.2) recs.

(** Two worlds that differ in what was printed only. *)
Definition printed_only (w w' : World) : Prop :=
  exists s, w' = emit s w.

(** A text in which [needle] occurs. *)
Definition occurs_in (needle hay : str) : Prop :=
  exists before after, hay = before ++ needle ++ after.

(** ** Names for what the script prints and for the paths it uses *)

(** What the three print functions write. *)
Definition info_line (msg endline : str) : str :=
  text " [" ++ BLU ++ text "*" ++ NC ++ text "] " ++ msg ++ endline.

Definition success_line (msg : str) : str :=
  (text " [" ++ GRN ++ text "+" ++ NC ++ text "] " ++ GRN ++ msg ++ NC) ++ [LF].

Definition error_line (msg : str) : str :=
  (text " [" ++ RED ++ text "-" ++ NC ++ text "] " ++ RED ++ text "ERROR:"
   ++ NC ++ text " " ++ msg) ++ [LF].

Definition oui_path (w : World) : string := path_join (program_dir w) OUI_DATA.
Definition updated_path (w : World) : string := path_join (program_dir w) updated_name.

(** The world in which the loop of [parse_oui_file] starts. *)
Definition loop_start (backup : string) (w : World) : World :=
  log (EvRead (oui_path w))
    (log (EvRead backup) (emit (info_line (text "Processing data: ") [CR]) w)).

(** What [parse_oui_file] prints once the loop has ended. *)
Definition done_line : str :=
  (ESC :: text "[K") ++
  success_line (NC ++ text "Processing data: [" ++ GRN ++ text "DONE" ++ NC ++ text "]").

Definition found_lines (w : World) (new_count : Z) : str :=
  success_line (text "Found " ++ str_of_int new_count ++ text " new OUIs") ++
  info_line (text "Writing new data to " ++ BLU ++ text (updated_path w) ++ NC) [LF].

(** A text without a carriage return. *)
Definition no_cr (s : str) : Prop := Forall (fun c => c <> CR) s.

(** ** Sample inputs *)

(** A line of the registry as the IEEE prints it. *)
Definition registry_line (oui org : string) : str :=
  text oui ++ text "     (base 16)" ++ [TAB; TAB] ++ text org.

(** An installed table with one entry, and a root process in [/opt/oui]. *)
Definition sample_table : str := text "001122 Acme Corp" ++ [LF].

Definition sample_world (table : str) (answer : option (Z * str)) : World :=
  mkWorld 0 "/opt/oui" "20220608.101500" {[ NMAP_OUI := table ]} ∅ ∅ answer [] [].


(** The world when the merge stage starts: the backup is taken and the
    fetched document is in the working file. *)
Definition sample_backup : string :=
  "/opt/oui/backups/nmap-mac-prefixes.20220608.101500".

Definition staged_world (table doc : str) : World :=
  mkWorld 0 "/opt/oui" "20220608.101500"
    {[ NMAP_OUI := table; sample_backup := table;
       "/opt/oui/ieee_oui_data.txt" := doc ]}
    {[ "/opt/oui/backups" ]} ∅ (Some (200%Z, doc)) [] [].

(** The document of the scenario: a known prefix and a new one, with the
    line ends of the registry. *)
Definition sample_doc : str :=
  registry_line "001122" "Acme Corp" ++ [CR; LF] ++
  registry_line "AABBCC" "Widget Inc" ++ [CR; LF].

Definition sample_merged : str :=
  sample_table ++ text "AABBCC Widget Inc" ++ [LF].

(** A document with a marker line the pattern does not match: one tab. *)
Definition one_tab_doc : str :=
  registry_line "001122" "Acme Corp" ++ [LF] ++
  text "AABBCC     (base 16)" ++ [TAB] ++ text "Widget Inc" ++ [LF].

(** What [main] prints first and last. *)
Definition banner_text : str := (RED ++ BANNER ++ YLW ++ SCRIPT ++ NC) ++ [LF].

Definition done_son : str := success_line (text "Done son!").

(** The world of the scenario with the installed table on a read-only
    mount: root can read it and cannot write it. *)
Definition readonly_world : World :=
  mkWorld 0 "/opt/oui" "20220608.101500" {[ NMAP_OUI := sample_table ]} ∅
    {[ NMAP_OUI ]} (Some (200%Z, sample_doc)) [] [].

(** A text that is empty or ends with a line feed. *)
Definition whole_lines (s : str) : Prop :=
  s = [] \/ exists s', s = s' ++ [LF].

(** ** Names for the paths of the backup *)

Definition backup_dir (w : World) : string := path_join (program_dir w) "backups".

Definition backup_name (w : World) : string := "nmap-mac-prefixes." +:+ timestamp w.

Definition backup_path (w : World) : string := path_join (backup_dir w) (backup_name w).

(** The last character of a path. *)
Fixpoint last_char (s : string) : option ascii :=
  match s with
  | EmptyString => None
  | String c EmptyString => Some c
  | String _ s' => last_char s'
  end.

(** What [os.path.join] puts in front of a relative name. *)
Definition dir_prefix (a : string) : string :=
  if bool_decide (a = EmptyString) then EmptyString
  else if String.eqb (substring (String.length a - 1) 1 a) "/" then a
  else a +:+ "/".

(** [sep.join(pieces)] with the line feed for [sep]. *)
Fixpoint join_lf (pieces : list str) : str :=
  match pieces with
  | [] => []
  | [piece] => piece
  | piece :: pieces' => piece ++ LF :: join_lf pieces'
  end.

(** What [backup_nmap_oui_file] prints. *)
Definition backup_dir_line (w : World) : str :=
  info_line (text "Creating backup directory: " ++ BLU ++ text (backup_dir w) ++ NC) [LF].

Definition backup_file_line (w : World) : str :=
  info_line (text "Creating backup of nmap-mac-prefixes: " ++ BLU
             ++ text (backup_name w) ++ NC) [LF].

(** The world once [backup_nmap_oui_file] has its directory. *)
Definition with_backup_dir (w : World) : World :=
  if bool_decide (backup_dir w ∈ dirs w) then log (EvIsdir (backup_dir w)) w
  else add_dir (backup_dir w)
         (log (EvMkdir (backup_dir w))
            (emit (backup_dir_line w) (log (EvIsdir (backup_dir w)) w))).

(** The events that are requests to the network. *)
Definition is_get (ev : Event) : bool :=
  match ev with
  | EvGet _ => true
  | _ => false
  end.

(** A world for the backup stage alone: root in [/opt/oui], the table
    installed or not. *)
Definition table_world (installed : gmap string str) : World :=
  mkWorld 0 "/opt/oui" "20220608.101500" installed ∅ ∅
    (Some (200%Z, sample_doc)) [] [].

(** The events of the directory step of [backup_nmap_oui_file]. *)
Definition backup_dir_events (w : World) : list Event :=
  if bool_decide (backup_dir w ∈ dirs w) then [EvIsdir (backup_dir w)]
  else [EvIsdir (backup_dir w); EvMkdir (backup_dir w)].

(** Two worlds with the same process, clock, directories, permissions and
    registry: what no stage after the backup changes. *)
Definition same_env (w w' : World) : Prop :=
  euid w' = euid w /\ program_dir w' = program_dir w /\
  timestamp w' = timestamp w /\ dirs w' = dirs w /\
  unwritable w' = unwritable w /\ http w' = http w.

(** The world when the install stage starts: the merged file is written. *)
Definition merged_world : World :=
  mkWorld 0 "/opt/oui" "20220608.101500"
    {[ NMAP_OUI := sample_table;
       "/opt/oui/nmap-mac-prefixes_updated" := sample_merged ]}
    ∅ ∅ None [] [].

(** * Properties *)

(** ** Substring search *)

Lemma starts_with_spec (p s : str) :
  starts_with p s = true <-> exists t, s = p ++ t.
Proof.
  revert s. induction p as [|a p IH]; intros s; simpl.
  - split; [eauto | done].
  - destruct s as [|b s].
    + split; [done | intros [t Ht]; discriminate].
    + rewrite andb_true_iff, N.eqb_eq, IH. split.
      * intros [-> [t ->]]. eauto.
      * intros [t Ht]. injection Ht as -> ->. eauto.
Qed.

Lemma str_in_spec (needle hay : str) :
  str_in needle hay = true <-> occurs_in needle hay.
Proof.
  unfold occurs_in. induction hay as [|c hay IH]; simpl.
  - rewrite orb_false_r, starts_with_spec. split.
    + intros [t Ht]. exists [], t. done.
    + intros (before & after & H). symmetry in H.
      apply app_eq_nil in H as [-> H]. apply app_eq_nil in H as [-> ->].
      exists []. done.
  - rewrite orb_true_iff, starts_with_spec, IH. split.
    + intros [[t Ht] | (before & after & ->)].
      * exists [], t. done.
      * exists (c :: before), after. done.
    + intros (before & after & H). destruct before as [|b before].
      * left. exists after. done.
      * right. injection H as -> ->. eauto.
Qed.

Lemma str_in_app_l (needle hay more : str) :
  str_in needle hay = true -> str_in needle (hay ++ more) = true.
Proof.
  rewrite !str_in_spec. intros (before & after & ->).
  exists before, (after ++ more). by rewrite <- !app_assoc.
Qed.

Lemma str_in_app_r (needle hay more : str) :
  str_in needle more = true -> str_in needle (hay ++ more) = true.
Proof.
  rewrite !str_in_spec. intros (before & after & ->).
  exists (hay ++ before), after. by rewrite <- !app_assoc.
Qed.

Lemma str_in_record (oui org : str) : str_in oui (record oui org) = true.
Proof. apply str_in_spec. exists [], (text " " ++ strip org ++ [LF]). done. Qed.

(** ** The pattern, read as a description of the line

    The search succeeds exactly on a line made of six hexadecimal digits,
    one or more spaces, the marker, two tabs and the rest; group 2 is the
    rest up to the first line feed, if there is one. *)

Lemma skip_spaces_repeat (k : nat) (s : str) :
  skip_spaces s = s -> skip_spaces (repeat SPACE k ++ s) = s.
Proof. intros Hs. induction k as [|k IH]; [done|]. simpl. exact IH. Qed.

Lemma skip_spaces_spec (s : str) :
  exists k, s = repeat SPACE k ++ skip_spaces s.
Proof.
  induction s as [|c s [k IH]]; [by exists 0%nat|]. simpl.
  destruct (N.eqb_spec c SPACE) as [->|Hne].
  - exists (S k). simpl. by rewrite <- IH.
  - by exists 0%nat.
Qed.

Lemma dot_star_spec (s : str) :
  exists rest, s = dot_star s ++ rest /\ (LF ∉ dot_star s) /\
               (rest = [] \/ exists r, rest = LF :: r).
Proof.
  induction s as [|c s (rest & IH & Hnot & Hrest)]; simpl.
  - exists []. repeat split; [apply not_elem_of_nil | by left].
  - destruct (N.eqb_spec c LF) as [->|Hne].
    + exists (LF :: s). repeat split; [apply not_elem_of_nil | right; by eexists].
    + exists rest. split; [simpl; by rewrite <- IH|]. split; [|done].
      apply not_elem_of_cons. split; [congruence | done].
Qed.

Lemma dot_star_app (org rest : str) :
  LF ∉ org -> (rest = [] \/ exists r, rest = LF :: r) -> dot_star (org ++ rest) = org.
Proof.
  intros Hnot Hrest. induction org as [|c org IH]; simpl.
  - destruct Hrest as [->|[r ->]]; [done|]. by simpl.
  - apply not_elem_of_cons in Hnot as [Hc Hnot].
    destruct (N.eqb_spec c LF) as [->|_]; [done|]. by rewrite IH.
Qed.

Lemma re_search_spec (line oui org : str) :
  re_search line = Some (oui, org) <->
  exists (k : nat) (rest : str),
    length oui = 6%nat /\
    forallb is_hex oui = true /\
    line = oui ++ repeat SPACE (S k) ++ marker ++ [TAB; TAB] ++ org ++ rest /\
    (LF ∉ org) /\
    (rest = [] \/ exists r, rest = LF :: r).
Proof.
  unfold re_search. split.
  - destruct (Nat.eqb_spec (length (take 6 line)) 6) as [Hlen|]; [|done].
    destruct (forallb is_hex (take 6 line)) eqn:Hhex; [|done]. cbn [andb].
    destruct (drop 6 line) as [|c tail] eqn:Hdrop; [done|].
    destruct (N.eqb_spec c SPACE) as [->|]; [|done].
    destruct (starts_with _ _) eqn:Hstart; [|done].
    apply starts_with_spec in Hstart as [t Ht].
    rewrite Ht, drop_app_length. intros [= <- <-].
    destruct (skip_spaces_spec tail) as [k Hk].
    destruct (dot_star_spec t) as (rest & Hrest & Hnot & Hend).
    exists k, rest. repeat split; try done.
    rewrite <- (take_drop 6 line) at 1. f_equal. rewrite Hdrop.
    change (repeat SPACE (S k)) with (SPACE :: repeat SPACE k).
    rewrite <- app_comm_cons. f_equal.
    rewrite Hk at 1. f_equal. rewrite Ht, <- app_assoc. do 2 f_equal. exact Hrest.
  - intros (k & rest & Hlen & Hhex & -> & Hnot & Hend).
    rewrite take_app_length' by done. rewrite drop_app_length' by done.
    rewrite Hlen, Hhex. cbn [Nat.eqb andb].
    change (repeat SPACE (S k) ++ ?x) with (SPACE :: repeat SPACE k ++ x).
    cbv beta iota. rewrite N.eqb_refl, (app_assoc marker).
    rewrite skip_spaces_repeat by reflexivity.
    assert (starts_with (marker ++ [TAB; TAB]) ((marker ++ [TAB; TAB]) ++ org ++ rest)
            = true) as -> by (apply starts_with_spec; by eexists).
    by rewrite drop_app_length, dot_star_app.
Qed.

(** ** Running the monad *)

Lemma run_bind {A B} (m : M A) (k : A -> M B) (w : World) :
  run (m ≫= k) w =
  match run m w with
  | (Ok a, w') => run (k a) w'
  | (Raise e, w') => (Raise e, w')
  end.
Proof. reflexivity. Qed.

Lemma run_ret {A} (a : A) (w : World) : run (mret a) w = (Ok a, w).
Proof. reflexivity. Qed.

Lemma emit_emit (s t : str) (w : World) : emit t (emit s w) = emit (s ++ t) w.
Proof. unfold emit; simpl. by rewrite app_assoc. Qed.

Lemma printed_only_refl (w : World) : printed_only w w.
Proof. exists []. unfold emit. destruct w; simpl. by rewrite app_nil_r. Qed.

Lemma printed_only_trans (w1 w2 w3 : World) :
  printed_only w1 w2 -> printed_only w2 w3 -> printed_only w1 w3.
Proof. intros [s ->] [t ->]. exists (s ++ t). apply emit_emit. Qed.

Lemma printed_only_emit (s : str) (w : World) : printed_only w (emit s w).
Proof. by exists s. Qed.

(** ** The merge loop *)

(** One turn of the loop, case by case. *)
Lemma merge_line_run (line buf : str) (n : Z) (w : World) :
  exists w', printed_only w w' /\
  run (merge_line line (buf, n)) w =
  if str_in marker line then
    match re_search line with
    | None => (Raise AttributeError, w)
    | Some (oui, org) =>
        if str_in oui buf then (Ok (buf, n), w)
        else (Ok (buf ++ record oui org, (n + 1)%Z), w')
    end
  else (Ok (buf, n), w).
Proof.
  unfold merge_line. destruct (str_in marker line).
  - destruct (re_search line) as [[oui org]|].
    + destruct (str_in oui buf); simpl.
      * exists w. split; [apply printed_only_refl | done].
      * eexists. split; [|reflexivity].
        eapply printed_only_trans; apply printed_only_emit.
    + exists w. split; [apply printed_only_refl | done].
  - exists w. split; [apply printed_only_refl | done].
Qed.

Lemma records_cons (oui org : str) (recs : list (str * str)) :
  records ((oui, org) :: recs) = record oui org ++ records recs.
Proof. reflexivity. Qed.

Lemma merge_lines_nil (st : str * Z) (w : World) :
  run (merge_lines [] st) w = (Ok st, w).
Proof. reflexivity. Qed.

Lemma merge_lines_cons (line : str) (lines : list str) (st : str * Z) (w : World) :
  run (merge_lines (line :: lines) st) w =
  match run (merge_line line st) w with
  | (Ok st', w') => run (merge_lines lines st') w'
  | (Raise e, w') => (Raise e, w')
  end.
Proof. reflexivity. Qed.

(** What a loop that ends has done: it appended the lines of some of the
    extracted pairs, in their order, one per prefix, each prefix absent from
    the buffer it started with; and it leaves every prefix of the document
    in the buffer. *)
Lemma merge_lines_ok (lines : list str) (buf : str) (n : Z) (w : World)
    (st : str * Z) (w' : World) :
  run (merge_lines lines (buf, n)) w = (Ok st, w') ->
  exists recs,
    st = (buf ++ records recs, (n + Z.of_nat (length recs))%Z) /\
    recs `sublist_of` extracted lines /\
    Forall (fun r => str_in r.1 buf = false) recs /\
    NoDup recs.*1 /\
    printed_only w w' /\
    Forall (fun line => str_in marker line = true ->
              exists oui org, re_search line = Some (oui, org) /\
                              str_in oui st.1 = true) lines.
Proof.
  revert buf n w. induction lines as [|line lines IH]; intros buf n w.
  - rewrite merge_lines_nil. intros [= <- <-]. exists []. unfold records; simpl.
    rewrite app_nil_r, Z.add_0_r.
    repeat split; auto using printed_only_refl; constructor.
  - rewrite merge_lines_cons.
    destruct (merge_line_run line buf n w) as (w1 & Hw1 & ->). simpl extracted.
    destruct (str_in marker line) eqn:Hm.
    + destruct (re_search line) as [[oui org]|] eqn:Hre; [|done].
      destruct (str_in oui buf) eqn:Hin.
      * intros H. destruct (IH _ _ _ H) as (recs & -> & Hsub & Hnew & Hnd & Hp & Hall).
        exists recs. repeat split; auto.
        -- by apply sublist_cons_r; left.
        -- constructor; [|done]. intros _. exists oui, org. split; [done|].
           simpl. by apply str_in_app_l.
      * intros H. destruct (IH _ _ _ H) as (recs & -> & Hsub & Hnew & Hnd & Hp & Hall).
        exists ((oui, org) :: recs). rewrite records_cons. repeat split.
        -- f_equal; [by rewrite <- app_assoc|]. simpl length. lia.
        -- by apply sublist_skip.
        -- constructor; [done|]. eapply Forall_impl; [exact Hnew|].
           simpl. intros r Hr. destruct (str_in r.1 buf) eqn:E; [|done].
           by rewrite (str_in_app_l _ _ _ E) in Hr.
        -- simpl. constructor; [|done]. intros Hel.
           apply list_elem_of_fmap in Hel as (r & Heq & Hel).
           rewrite Forall_forall in Hnew. specialize (Hnew r Hel).
           rewrite <- Heq in Hnew.
           rewrite str_in_app_r in Hnew; [done | apply str_in_record].
        -- by eapply printed_only_trans.
        -- constructor; [|done].
           intros _. exists oui, org. split; [done|]. simpl.
           apply str_in_app_l, str_in_app_r, str_in_record.
    + intros H. destruct (IH _ _ _ H) as (recs & -> & Hsub & Hnew & Hnd & Hp & Hall).
      exists recs. repeat split; auto. constructor; [|done]. congruence.
Qed.

(** A loop that meets a marker line the pattern does not match stops there
    with the error of calling [groups] on [None]. *)
Lemma merge_lines_raises (lines : list str) (st : str * Z) (w : World) :
  Exists (fun line => str_in marker line = true /\ re_search line = None) lines ->
  exists w', printed_only w w' /\
    run (merge_lines lines st) w = (Raise AttributeError, w').
Proof.
  revert st w. induction lines as [|line lines IH]; intros [buf n] w Hex.
  - inversion Hex.
  - rewrite merge_lines_cons.
    destruct (merge_line_run line buf n w) as (w1 & Hw1 & ->).
    destruct (str_in marker line) eqn:Hm.
    + destruct (re_search line) as [[oui org]|] eqn:Hre.
      * apply Exists_cons in Hex as [[_ Hbad]|Hex]; [congruence|].
        destruct (str_in oui buf).
        -- by apply IH.
        -- destruct (IH (buf ++ record oui org, (n + 1)%Z) w1 Hex) as (w' & Hp & ->).
           exists w'. split; [by eapply printed_only_trans | done].
      * exists w. split; [apply printed_only_refl | done].
    + apply Exists_cons in Hex as [[Hbad _]|Hex]; [congruence|]. by apply IH.
Qed.

(** A loop over a document whose every prefix is in the buffer leaves the
    buffer, the counter and the console as they are. *)
Lemma merge_lines_all_present (lines : list str) (buf : str) (n : Z) (w : World) :
  Forall (fun line => str_in marker line = true ->
            exists oui org, re_search line = Some (oui, org) /\
                            str_in oui buf = true) lines ->
  run (merge_lines lines (buf, n)) w = (Ok (buf, n), w).
Proof.
  induction 1 as [|line lines Hline _ IH]; [done|].
  rewrite merge_lines_cons.
  destruct (merge_line_run line buf n w) as (w1 & _ & ->).
  destruct (str_in marker line); [|done].
  destruct Hline as (oui & org & -> & ->); done.
Qed.

(** Running the loop again, from the buffer the first run ended with. *)
Lemma merge_lines_twice (lines : list str) (buf : str) (n : Z) (w : World)
    (buf' : str) (n' : Z) (w' : World) :
  run (merge_lines lines (buf, n)) w = (Ok (buf', n'), w') ->
  forall w2, run (merge_lines lines (buf', 0%Z)) w2 = (Ok (buf', 0%Z), w2).
Proof.
  intros H w2. apply merge_lines_ok in H as (recs & Hst & _ & _ & _ & _ & Hall).
  apply merge_lines_all_present. exact Hall.
Qed.

(** ** What the pattern and [strip] keep

    Every code point of a group, and of a stripped group, is one of the
    line's. *)

Section Kept.
Variable P : N -> Prop.

Lemma lstrip_Forall (s : str) : Forall P s -> Forall P (lstrip s).
Proof.
  induction 1 as [|c s Hc Hs IH]; simpl; [constructor|].
  destruct (is_space c); [done | by constructor].
Qed.

Lemma strip_Forall (s : str) : Forall P s -> Forall P (strip s).
Proof.
  intros H. unfold strip.
  apply Forall_rev, lstrip_Forall, Forall_rev, lstrip_Forall, H.
Qed.

Lemma skip_spaces_Forall (s : str) : Forall P s -> Forall P (skip_spaces s).
Proof.
  induction 1 as [|c s Hc Hs IH]; simpl; [constructor|].
  destruct (c =? SPACE); [done | by constructor].
Qed.

Lemma dot_star_Forall (s : str) : Forall P s -> Forall P (dot_star s).
Proof.
  induction 1 as [|c s Hc Hs IH]; simpl; [constructor|].
  destruct (c =? LF); by constructor.
Qed.

Lemma re_search_Forall (line oui org : str) :
  Forall P line -> re_search line = Some (oui, org) ->
  Forall P oui /\ Forall P org.
Proof.
  intros Hline. unfold re_search.
  destruct ((length (take 6 line) =? 6)%nat && forallb is_hex (take 6 line)); [|done].
  destruct (drop 6 line) as [|c rest] eqn:Hdrop; [done|].
  destruct (c =? SPACE); [|done].
  destruct (starts_with _ _); [|done]. intros [= <- <-]. split.
  - by apply Forall_take.
  - apply dot_star_Forall, Forall_drop, skip_spaces_Forall.
    assert (Forall P (c :: rest)) as H by (rewrite <- Hdrop; by apply Forall_drop).
    by inversion H.
Qed.

Lemma split_lf_Forall (s : str) : Forall P s -> Forall (Forall P) (split_lf s).
Proof.
  induction 1 as [|c s Hc Hs IH]; simpl; [by repeat constructor|].
  destruct (c =? LF); [by repeat constructor|].
  destruct (split_lf s) as [|l ls]; [by repeat constructor|].
  inversion IH; subst. by repeat constructor.
Qed.

Lemma extracted_Forall (lines : list str) :
  Forall (Forall P) lines ->
  Forall (fun r => Forall P r.1 /\ Forall P r.2) (extracted lines).
Proof.
  induction 1 as [|line lines Hline _ IH]; simpl; [constructor|].
  destruct (str_in marker line); [|done].
  destruct (re_search line) as [[oui org]|] eqn:Hre; [|done].
  constructor; [|done]. by eapply re_search_Forall.
Qed.

Lemma records_Forall (recs : list (str * str)) :
  P SPACE -> P LF ->
  Forall (fun r => Forall P r.1 /\ Forall P r.2) recs -> Forall P (records recs).
Proof.
  intros Hsp Hlf. induction 1 as [|[oui org] recs [Ho Hg] _ IH]; [constructor|].
  rewrite records_cons. unfold record. simpl in Ho, Hg.
  change (text " ") with [SPACE].
  repeat (apply Forall_app; split); auto using strip_Forall; by repeat constructor.
Qed.
End Kept.

(** ** Text mode *)

Lemma universal_newlines_id (s : str) : no_cr s -> universal_newlines s = s.
Proof.
  induction 1 as [|c s Hc Hs IH]; [done|]. simpl.
  apply N.eqb_neq in Hc. rewrite Hc. by rewrite IH.
Qed.

Lemma universal_newlines_no_cr (s : str) : no_cr (universal_newlines s).
Proof.
  assert (forall n (s : str), (length s <= n)%nat -> no_cr (universal_newlines s)) as H.
  { clear s. induction n as [|n IH]; intros [|c s] Hlen; simpl in *;
      try constructor; try lia.
    - destruct (N.eqb_spec c CR) as [->|Hne].
      + constructor; [done|]. destruct s as [|d s]; [constructor|].
        simpl in Hlen. destruct (d =? LF); apply IH; simpl; lia.
      + constructor; [done|]. apply IH. lia. }
  by apply (H (length s)).
Qed.

(** ** Running the primitives *)

Lemma run_stdout_write (s : str) (w : World) :
  run (stdout_write s) w = (Ok tt, emit s w).
Proof. reflexivity. Qed.

Lemma run_print (s : str) (w : World) : run (print s) w = (Ok tt, emit (s ++ [LF]) w).
Proof. reflexivity. Qed.

Lemma run_print_info (msg endline : str) (w : World) :
  run (print_info msg endline) w = (Ok tt, emit (info_line msg endline) w).
Proof. reflexivity. Qed.

Lemma run_print_success (msg : str) (w : World) :
  run (print_success msg) w = (Ok tt, emit (success_line msg) w).
Proof. reflexivity. Qed.

Lemma run_print_error (msg : str) (w : World) :
  run (print_error msg) w = (Ok tt, emit (error_line msg) w).
Proof. reflexivity. Qed.

Lemma run_get_root_program_path (w : World) :
  run get_root_program_path w = (Ok (program_dir w), w).
Proof. reflexivity. Qed.

Lemma run_get_timestamp (w : World) : run get_timestamp w = (Ok (timestamp w), w).
Proof. reflexivity. Qed.

Lemma run_is_root (w : World) : run is_root w = (Ok (euid w =? 0)%Z, w).
Proof. reflexivity. Qed.

Lemma run_read_text (p : string) (w : World) :
  run (read_text p) w =
  match open_read p w with
  | Ok s => (Ok (universal_newlines s), log (EvRead p) w)
  | Raise e => (Raise e, log (EvRead p) w)
  end.
Proof. reflexivity. Qed.

Lemma run_write_text (p : string) (s : str) (w : World) :
  run (write_text p s) w =
  match open_write p w with
  | Ok _ => (Ok tt, store p s (log (EvWrite p) w))
  | Raise e => (Raise e, log (EvWrite p) w)
  end.
Proof. reflexivity. Qed.

Lemma run_copyfile (src dst : string) (w : World) :
  run (copyfile src dst) w =
  if bool_decide (src = dst) then (Raise (SameFileError src), log (EvCopy src dst) w)
  else match open_read src w with
       | Raise e => (Raise e, log (EvCopy src dst) w)
       | Ok s =>
           match open_write dst w with
           | Raise e => (Raise e, log (EvCopy src dst) w)
           | Ok _ => (Ok tt, store dst s (log (EvCopy src dst) w))
           end
       end.
Proof. reflexivity. Qed.

Lemma run_requests_get (url : string) (w : World) :
  run (requests_get url) w =
  match http w with
  | Some res => (Ok res, log (EvGet url) w)
  | None => (Raise ConnectionError, log (EvGet url) w)
  end.
Proof. reflexivity. Qed.

Lemma open_read_log (p : string) (e : Event) (w : World) :
  open_read p (log e w) = open_read p w.
Proof. reflexivity. Qed.

Lemma open_read_emit (p : string) (s : str) (w : World) :
  open_read p (emit s w) = open_read p w.
Proof. reflexivity. Qed.

Lemma open_write_log (p : string) (e : Event) (w : World) :
  open_write p (log e w) = open_write p w.
Proof. reflexivity. Qed.

Lemma open_write_emit (p : string) (s : str) (w : World) :
  open_write p (emit s w) = open_write p w.
Proof. reflexivity. Qed.

Lemma program_dir_log (e : Event) (w : World) : program_dir (log e w) = program_dir w.
Proof. reflexivity. Qed.

Lemma program_dir_emit (s : str) (w : World) : program_dir (emit s w) = program_dir w.
Proof. reflexivity. Qed.

Lemma program_dir_store (p : string) (s : str) (w : World) :
  program_dir (store p s w) = program_dir w.
Proof. reflexivity. Qed.

Create Rewrite HintDb run.
#[local] Hint Rewrite @run_ret run_stdout_write run_print run_print_info run_print_success
  run_print_error run_get_root_program_path run_get_timestamp run_is_root
  run_read_text run_write_text run_copyfile run_requests_get
  open_read_log open_read_emit open_write_log open_write_emit
  program_dir_log program_dir_emit program_dir_store : run.

(** One statement of a function body. *)
Ltac step := rewrite run_bind; autorewrite with run; cbv beta iota.

(** ** The merge stage *)

Lemma merge_records_run (backup : string) (w : World) :
  run (merge_records backup) w =
  match open_read backup w with
  | Raise e =>
      (Raise e, log (EvRead backup) (emit (info_line (text "Processing data: ") [CR]) w))
  | Ok b =>
      match open_read (oui_path w) w with
      | Raise e => (Raise e, loop_start backup w)
      | Ok d =>
          run (merge_lines (split_lf (universal_newlines d))
                 (universal_newlines b, 0%Z)) (loop_start backup w)
      end
  end.
Proof.
  unfold merge_records, loop_start, oui_path.
  do 3 step. destruct (open_read backup w) as [b|e]; [|done].
  step. destruct (open_read _ w) as [d|e]; done.
Qed.

(** The loop prints and does nothing else, whether it ends or raises. *)
Lemma merge_lines_printed_only (lines : list str) (st : str * Z) (w : World)
    (r : Result (str * Z)) (w' : World) :
  run (merge_lines lines st) w = (r, w') -> printed_only w w'.
Proof.
  revert st w. induction lines as [|line lines IH]; intros [buf n] w.
  - rewrite merge_lines_nil. intros [= <- <-]. apply printed_only_refl.
  - rewrite merge_lines_cons.
    destruct (merge_line_run line buf n w) as (w1 & Hw1 & ->).
    destruct (str_in marker line); [|by apply IH].
    destruct (re_search line) as [[oui org]|].
    + destruct (str_in oui buf); [by apply IH|].
      intros H. eapply printed_only_trans; [exact Hw1 | by eapply IH].
    + intros [= <- <-]. apply printed_only_refl.
Qed.

Lemma parse_oui_file_run (backup : string) (w : World) :
  run (parse_oui_file backup) w =
  match run (merge_records backup) w with
  | (Raise e, w1) => (Raise e, w1)
  | (Ok (backup_data, new_count), w1) =>
      if (new_count =? 0)%Z then
        (Ok false, emit (done_line ++ info_line (text "No new records!") [LF]) w1)
      else
        let w2 := emit (done_line ++ found_lines w1 new_count) w1 in
        match open_write (updated_path w1) w1 with
        | Ok _ => (Ok true, store (updated_path w1) backup_data
                              (log (EvWrite (updated_path w1)) w2))
        | Raise e => (Raise e, log (EvWrite (updated_path w1)) w2)
        end
  end.
Proof.
  unfold parse_oui_file. rewrite run_bind.
  destruct (run (merge_records backup) w) as [[[backup_data new_count]|e] w1]; [|done].
  do 2 step. destruct (new_count =? 0)%Z; cbn [negb].
  - step. rewrite !emit_emit. unfold done_line. by rewrite <- !app_assoc.
  - do 4 step. rewrite !emit_emit.
    unfold done_line, found_lines, updated_path. rewrite <- !app_assoc.
    by destruct (open_write _ w1).
Qed.

(** ** Lines *)

Lemma readlines_nil_inv (s : str) : readlines s = [] -> s = [].
Proof.
  destruct s as [|c s]; [done|]. simpl.
  destruct (c =? LF); [done|]. by destruct (readlines s).
Qed.

Lemma readlines_app_lf (s more : str) :
  readlines ((s ++ [LF]) ++ more) = readlines (s ++ [LF]) ++ readlines more.
Proof.
  induction s as [|c s IH]; [done|]. simpl.
  destruct (c =? LF); [by rewrite IH|]. rewrite IH.
  destruct (readlines (s ++ [LF])) as [|l ls] eqn:E; [|done].
  apply readlines_nil_inv in E. by destruct s.
Qed.

Lemma readlines_app (s more : str) :
  whole_lines s -> readlines (s ++ more) = readlines s ++ readlines more.
Proof. intros [->|[s' ->]]; [done | apply readlines_app_lf]. Qed.

(** ** The buffer of a run has no carriage return *)

Lemma merge_records_ok (backup : string) (w : World) (st : str * Z) (w1 : World) :
  run (merge_records backup) w = (Ok st, w1) ->
  exists b d,
    open_read backup w = Ok b /\
    open_read (oui_path w) w = Ok d /\
    run (merge_lines (split_lf (universal_newlines d)) (universal_newlines b, 0%Z))
        (loop_start backup w) = (Ok st, w1).
Proof.
  rewrite merge_records_run.
  destruct (open_read backup w) as [b|e]; [|done].
  destruct (open_read (oui_path w) w) as [d|e]; [|done].
  intros H. by exists b, d.
Qed.

Lemma merged_no_cr (b d : str) (recs : list (str * str)) :
  recs `sublist_of` extracted (split_lf (universal_newlines d)) ->
  no_cr (universal_newlines b ++ records recs).
Proof.
  intros Hsub. apply Forall_app. split; [apply universal_newlines_no_cr|].
  apply records_Forall; [done | done |].
  apply Forall_forall. intros r Hr. eapply elem_of_sublist in Hr; [|exact Hsub].
  revert r Hr. apply Forall_forall, extracted_Forall, split_lf_Forall.
  apply universal_newlines_no_cr.
Qed.

Lemma printed_only_program_dir (w w' : World) :
  printed_only w w' -> program_dir w' = program_dir w.
Proof. by intros [s ->]. Qed.

Lemma printed_only_files (w w' : World) : printed_only w w' -> files w' = files w.
Proof. by intros [s ->]. Qed.

Lemma printed_only_events (w w' : World) : printed_only w w' -> events w' = events w.
Proof. by intros [s ->]. Qed.

(** ** The fetch stage *)

Lemma download_ieee_oui_file_run (w : World) :
  run download_ieee_oui_file w =
  let w1 := log (EvGet IEEE_URL)
              (emit (info_line (text "Downloading latest copy of OUI data from IEEE...")
                       [LF]) w) in
  match http w with
  | None => (Raise ConnectionError, w1)
  | Some (status_code, body) =>
      if (status_code =? 200)%Z && str_in marker body then
        match open_write (oui_path w) w with
        | Ok _ =>
            (Ok true,
             emit (success_line
                     (text "Downloaded to " ++ BLU ++ text (oui_path w) ++ NC
                      ++ text " (" ++ str_of_int (Z.of_nat (length body))
                      ++ text " bytes)"))
               (store (oui_path w) body (log (EvWrite (oui_path w)) w1)))
        | Raise e => (Raise e, log (EvWrite (oui_path w)) w1)
        end
      else
        (Ok false,
         emit (error_line (text "Got status code " ++ str_of_int status_code
                           ++ text " while downloading")) w1)
  end.
Proof.
  unfold download_ieee_oui_file, oui_path. do 3 step.
  change (http (emit ?s w)) with (http w).
  destruct (http w) as [[status_code body]|]; [|done]. cbv beta iota zeta.
  destruct ((status_code =? 200)%Z && str_in marker body).
  - step. destruct (open_write _ w); [|done]. by step.
  - by step.
Qed.

(** ** The install stage and the orchestrator *)

Lemma apply_updated_file_run (w : World) :
  run apply_updated_file w =
  let w1 := log (EvCopy (updated_path w) NMAP_OUI)
              (emit (info_line (text "Copying " ++ GRN ++ text (updated_path w) ++ NC
                                ++ text " to " ++ BLU ++ text NMAP_OUI ++ NC) [LF]) w) in
  if bool_decide (updated_path w = NMAP_OUI)
  then (Raise (SameFileError (updated_path w)), w1)
  else match open_read (updated_path w) w with
       | Raise e => (Raise e, w1)
       | Ok s =>
           match open_write NMAP_OUI w with
           | Raise e => (Raise e, w1)
           | Ok _ => (Ok true, store NMAP_OUI s w1)
           end
       end.
Proof.
  unfold apply_updated_file, updated_path. do 3 step. cbv zeta.
  destruct (bool_decide _); [done|].
  destruct (open_read _ w); [|done]. by destruct (open_write _ w).
Qed.

(** The install stage has one way to fail: it raises. *)
Lemma apply_updated_file_true (w : World) (b : bool) (w' : World) :
  run apply_updated_file w = (Ok b, w') -> b = true.
Proof.
  rewrite apply_updated_file_run. cbv zeta.
  destruct (bool_decide _); [done|].
  destruct (open_read _ w); [|done]. destruct (open_write _ w); congruence.
Qed.

(** [main] for a root process, stage by stage. *)
Lemma main_run_root (w : World) :
  euid w = 0%Z ->
  run main w =
  match run backup_nmap_oui_file (emit banner_text w) with
  | (Raise e, w1) => (Raise e, w1)
  | (Ok backup_copy, w1) =>
      match run download_ieee_oui_file w1 with
      | (Raise e, w2) => (Raise e, w2)
      | (Ok false, w2) => (Ok 2%Z, w2)
      | (Ok true, w2) =>
          match run (parse_oui_file backup_copy) w2 with
          | (Raise e, w3) => (Raise e, w3)
          | (Ok false, w3) => (Ok 0%Z, emit done_son w3)
          | (Ok true, w3) =>
              match run apply_updated_file w3 with
              | (Raise e, w4) => (Raise e, w4)
              | (Ok false, w4) => (Ok 4%Z, w4)
              | (Ok true, w4) => (Ok 0%Z, emit done_son w4)
              end
          end
      end
  end.
Proof.
  intros Hroot. unfold main. do 2 step.
  change (euid (emit ?s w)) with (euid w). rewrite Hroot. cbn [Z.eqb negb].
  fold banner_text. rewrite run_bind.
  destruct (run backup_nmap_oui_file _) as [[backup_copy|e] w1]; [|done].
  rewrite run_bind.
  destruct (run download_ieee_oui_file w1) as [[[]|e] w2]; [|done|done].
  cbn [negb]. cbv zeta. rewrite run_bind.
  destruct (run (parse_oui_file backup_copy) w2) as [[[]|e] w3]; [| |done].
  - rewrite run_bind.
    destruct (run apply_updated_file w3) as [[[]|e] w4]; [|done|done].
    cbn [negb]. by step.
  - by step.
Qed.

Lemma main_run_not_root (w : World) :
  euid w <> 0%Z ->
  run main w =
  (Ok 1%Z, emit (banner_text ++ error_line (text "This script must be run as root!")) w).
Proof.
  intros Hroot. unfold main. do 2 step.
  change (euid (emit ?s w)) with (euid w).
  apply Z.eqb_neq in Hroot. rewrite Hroot. cbn [negb].
  step. by rewrite emit_emit.
Qed.

(** The merge stage on a document with a marker line the pattern does not
    match: both files are read, the loop raises, nothing is written. *)
Lemma parse_oui_file_raises (backup : string) (w : World) (b d : str) :
  open_read backup w = Ok b ->
  open_read (oui_path w) w = Ok d ->
  Exists (fun line => str_in marker line = true /\ re_search line = None)
         (split_lf (universal_newlines d)) ->
  exists w',
    run (parse_oui_file backup) w = (Raise AttributeError, w') /\
    files w' = files w /\
    events w' = events w ++ [EvRead backup; EvRead (oui_path w)].
Proof.
  intros Hb Hd Hbad.
  destruct (merge_lines_raises _ (universal_newlines b, 0%Z) (loop_start backup w) Hbad)
    as (w' & Hp & Hrun).
  exists w'. rewrite parse_oui_file_run, merge_records_run, Hb, Hd, Hrun.
  split; [done|].
  rewrite (printed_only_files _ _ Hp), (printed_only_events _ _ Hp).
  split; [done|]. simpl. by rewrite <- app_assoc.
Qed.

(** ** The scenarios of the specification *)

(** The table has 001122; the document lists 001122 and AABBCC: the entry
    stays, one line is appended, the count is 1. *)
Example scenario_one_new_record :
  let doc := registry_line "001122" "Acme Corp" ++ [LF]
             ++ registry_line "AABBCC" "Widget Inc" in
  (run (merge_records sample_backup) (staged_world sample_table doc)).1
  = Ok (text "001122 Acme Corp" ++ [LF] ++ text "AABBCC Widget Inc" ++ [LF], 1%Z).
Proof. vm_compute. reflexivity. Qed.

(** The registry answers 404: [main] returns 2, the working file is not
    written and the installed table is as it was. *)
Example scenario_fetch_404 :
  let w := sample_world sample_table (Some (404%Z, text "Not Found")) in
  (script w).1 = 2%Z /\
  files (script w).2 !! "/opt/oui/ieee_oui_data.txt" = None /\
  files (script w).2 !! NMAP_OUI = Some sample_table /\
  events (script w).2 =
    [EvIsdir "/opt/oui/backups"; EvMkdir "/opt/oui/backups";
     EvCopy NMAP_OUI sample_backup; EvGet IEEE_URL].
Proof. repeat split; vm_compute; reflexivity. Qed.

(** A whole run that finds a record: the installed table is the merged
    text. *)
Example scenario_install :
  let w := sample_world sample_table (Some (200%Z, sample_doc)) in
  (script w).1 = 0%Z /\
  files (script w).2 !! NMAP_OUI = Some sample_merged /\
  files (script w).2 !! sample_backup = Some sample_table.
Proof. repeat split; vm_compute; reflexivity. Qed.

(** * The claims *)

(** C4: when the pattern extracts a pair from a marker line and the raw
    prefix occurs anywhere in the accumulating buffer, as a plain substring,
    the turn of the loop appends nothing and leaves the counter alone; it
    does not even print. *)
Theorem present_prefix_is_skipped (line buf : str) (n : Z) (w : World)
    (oui org : str) :
  str_in marker line = true ->
  re_search line = Some (oui, org) ->
  occurs_in oui buf ->
  run (merge_line line (buf, n)) w = (Ok (buf, n), w).
Proof.
  intros Hm Hre Hin. apply str_in_spec in Hin.
  destruct (merge_line_run line buf n w) as (w1 & _ & ->).
  by rewrite Hm, Hre, Hin.
Qed.

(** The prefix sits inside an organization name of the buffer, not in the
    prefix field of any entry: the record is suppressed all the same. *)
Lemma present_prefix_is_skipped_witness :
  let line := registry_line "001122" "Acme Corp" in
  let buf := text "AABBCC Acme 001122 Ltd" ++ [LF] in
  let w := sample_world sample_table None in
  occurs_in (text "001122") buf /\
  run (merge_line line (buf, 3%Z)) w = (Ok (buf, 3%Z), w).
Proof.
  assert (occurs_in (text "001122") (text "AABBCC Acme 001122 Ltd" ++ [LF])) as H.
  { exists (text "AABBCC Acme "), (text " Ltd" ++ [LF]). reflexivity. }
  split; [exact H|].
  apply (present_prefix_is_skipped _ _ _ _ (text "001122") (text "Acme Corp"));
    [reflexivity | reflexivity | exact H].
Defined.

(** C9: a loop that ends has appended the lines of a list of extracted
    pairs, taken in the order of the document, whose prefixes are pairwise
    different, and has counted one per line: no prefix gets two lines in one
    run, however often it occurs in the document. *)
Theorem one_line_per_prefix (lines : list str) (buf : str) (n : Z) (w : World)
    (st : str * Z) (w' : World) :
  run (merge_lines lines (buf, n)) w = (Ok st, w') ->
  exists recs,
    st = (buf ++ records recs, (n + Z.of_nat (length recs))%Z) /\
    recs `sublist_of` extracted lines /\
    NoDup recs.*1.
Proof.
  intros H. apply merge_lines_ok in H as (recs & Hst & Hsub & _ & Hnd & _).
  by exists recs.
Qed.

(** The same prefix on two matching lines: one line is appended. *)
Lemma one_line_per_prefix_witness :
  let lines := [registry_line "AABBCC" "Widget Inc";
                registry_line "AABBCC" "Widget Incorporated"] in
  exists recs,
    (sample_table ++ text "AABBCC Widget Inc" ++ [LF], 1%Z) =
      (sample_table ++ records recs, (0 + Z.of_nat (length recs))%Z) /\
    recs `sublist_of` extracted lines /\
    NoDup recs.*1.
Proof.
  intros lines.
  apply (one_line_per_prefix lines sample_table 0 (sample_world sample_table None) _
           (run (merge_lines lines (sample_table, 0%Z)) (sample_world sample_table None)).2).
  vm_compute. reflexivity.
Defined.

(** C10: the containment check compares code points, so no case is folded:
    a buffer that holds a prefix in upper case only does not hold its lower
    case form, and a matching line with the lower case form is appended and
    counted. *)
Theorem containment_is_case_sensitive :
  exists (buf line : str),
    str_in (text "AABBCC") buf = true /\
    str_in (text "aabbcc") buf = false /\
    re_search line = Some (text "aabbcc", text "Widget Inc") /\
    forall (n : Z) (w : World), exists w',
      run (merge_line line (buf, n)) w =
      (Ok (buf ++ text "aabbcc Widget Inc" ++ [LF], (n + 1)%Z), w').
Proof.
  exists (text "AABBCC Widget Inc" ++ [LF]), (registry_line "aabbcc" "Widget Inc").
  repeat split; try reflexivity.
  intros n w.
  destruct (merge_line_run (registry_line "aabbcc" "Widget Inc")
              (text "AABBCC Widget Inc" ++ [LF]) n w) as (w' & _ & ->).
  exists w'.
  assert (str_in marker (registry_line "aabbcc" "Widget Inc") = true) as ->
    by reflexivity.
  assert (re_search (registry_line "aabbcc" "Widget Inc")
          = Some (text "aabbcc", text "Widget Inc")) as -> by reflexivity.
  assert (str_in (text "aabbcc") (text "AABBCC Widget Inc" ++ [LF]) = false) as ->
    by reflexivity.
  reflexivity.
Qed.

(** C3: when a first merge ends with some buffer, a second merge of the
    same fetched document whose backup file holds that buffer ends with the
    same buffer and the counter at zero; [parse_oui_file] then reports that
    there is nothing new and writes no file. *)
Theorem second_run_appends_nothing (backup : string) (w : World) (buf : str)
    (n : Z) (w1 : World) (backup2 : string) (w2 : World) :
  run (merge_records backup) w = (Ok (buf, n), w1) ->
  program_dir w2 = program_dir w ->
  open_read backup2 w2 = Ok buf ->
  open_read (oui_path w2) w2 = open_read (oui_path w) w ->
  (exists w3, run (merge_records backup2) w2 = (Ok (buf, 0%Z), w3)) /\
  (exists w4, run (parse_oui_file backup2) w2 = (Ok false, w4) /\
              files w4 = files w2).
Proof.
  intros H1 Hdir Hbk Hdoc.
  apply merge_records_ok in H1 as (b & d & Hb & Hd & Hloop).
  pose proof (merge_lines_twice _ _ _ _ _ _ _ Hloop (loop_start backup2 w2)) as H2.
  apply merge_lines_ok in Hloop as (recs & [= Hbuf _] & Hsub & _).
  assert (universal_newlines buf = buf) as Hid.
  { apply universal_newlines_id. rewrite Hbuf. by apply (merged_no_cr b d). }
  assert (run (merge_records backup2) w2 = (Ok (buf, 0%Z), loop_start backup2 w2)) as H3.
  { rewrite merge_records_run, Hbk, Hdoc, Hd, Hid. exact H2. }
  split; [by eexists|].
  rewrite parse_oui_file_run, H3. simpl. by eexists.
Qed.

(** The first run finds one record and writes the merged file; the second
    run reads that file as its backup and finds nothing. *)
Lemma second_run_appends_nothing_witness :
  let w := staged_world sample_table sample_doc in
  let w2 := (run (parse_oui_file sample_backup) w).2 in
  let backup2 := "/opt/oui/nmap-mac-prefixes_updated" in
  run (merge_records sample_backup) w
    = (Ok (sample_merged, 1%Z), (run (merge_records sample_backup) w).2) /\
  open_read backup2 w2 = Ok sample_merged /\
  (exists w3, run (merge_records backup2) w2 = (Ok (sample_merged, 0%Z), w3)) /\
  (exists w4, run (parse_oui_file backup2) w2 = (Ok false, w4) /\
              files w4 = files w2).
Proof.
  intros w w2 backup2.
  assert (run (merge_records sample_backup) w
          = (Ok (sample_merged, 1%Z), (run (merge_records sample_backup) w).2)) as H1
    by (vm_compute; reflexivity).
  assert (open_read backup2 w2 = Ok sample_merged) as H2 by (vm_compute; reflexivity).
  split; [exact H1|]. split; [exact H2|].
  apply (second_run_appends_nothing sample_backup w sample_merged 1
           (run (merge_records sample_backup) w).2 backup2 w2 H1);
    [reflexivity | exact H2 | vm_compute; reflexivity].
Defined.

(** C1: a marker line the pattern does not match is not skipped.  On a
    fetched document whose second line has one tab where the pattern wants
    two, the search yields [None], the call of [groups] raises, and the
    merge stage ends with that error instead of going on to the next line;
    the script dies of it. *)
Theorem unmatched_marker_line_raises :
  let bad := text "AABBCC     (base 16)" ++ [TAB] ++ text "Widget Inc" in
  let w := staged_world sample_table one_tab_doc in
  bad ∈ split_lf one_tab_doc /\
  str_in marker bad = true /\
  re_search bad = None /\
  (exists w', run (merge_records sample_backup) w = (Raise AttributeError, w')) /\
  (exists w', run (parse_oui_file sample_backup) w = (Raise AttributeError, w')) /\
  (exists w', run main (sample_world sample_table (Some (200%Z, one_tab_doc)))
              = (Raise AttributeError, w')).
Proof.
  intros bad w. split.
  { vm_compute. apply list_elem_of_further, list_elem_of_here. }
  repeat split; try reflexivity; eexists; vm_compute; reflexivity.
Qed.




(** C5: for a response the request returns, and a working file that can be
    opened for writing, the fetch stage reports success exactly when the
    status is 200 and the marker occurs in the body; it then leaves the body,
    whole and unchanged, in the working file.  For every other response it
    reports failure, prints the status code, and touches no file: the one
    thing it has done is the request. *)
Theorem fetch_validation (w : World) (status_code : Z) (body : str) :
  http w = Some (status_code, body) ->
  open_write (oui_path w) w = Ok tt ->
  let valid := status_code = 200%Z /\ occurs_in marker body in
  ((exists w', run download_ieee_oui_file w = (Ok true, w')) <-> valid) /\
  (valid ->
   exists w', run download_ieee_oui_file w = (Ok true, w') /\
     files w' = <[oui_path w := body]> (files w) /\
     files w' !! oui_path w = Some body /\
     events w' = events w ++ [EvGet IEEE_URL; EvWrite (oui_path w)]) /\
  (~ valid ->
   exists w', run download_ieee_oui_file w = (Ok false, w') /\
     files w' = files w /\
     events w' = events w ++ [EvGet IEEE_URL] /\
     stdout w' = stdout w
       ++ info_line (text "Downloading latest copy of OUI data from IEEE...") [LF]
       ++ error_line (text "Got status code " ++ str_of_int status_code
                      ++ text " while downloading")).
Proof.
  intros Hhttp Hopen valid. rewrite download_ieee_oui_file_run, Hhttp, Hopen.
  cbv zeta.
  assert ((status_code =? 200)%Z && str_in marker body = true <-> valid) as Hvalid.
  { unfold valid. by rewrite andb_true_iff, Z.eqb_eq, str_in_spec. }
  destruct ((status_code =? 200)%Z && str_in marker body).
  - assert valid as Hv by by apply Hvalid.
    split; [|split].
    + split; [done | by eexists].
    + intros _. eexists. split; [done|]. simpl.
      split; [done|]. split; [apply lookup_insert_eq | by rewrite <- app_assoc].
    + done.
  - assert (~ valid) as Hv by (intros Hv; by apply Hvalid in Hv).
    split; [|split].
    + split; [by intros [w' [=]] | done].
    + done.
    + intros _. eexists. split; [done|]. simpl. by rewrite <- app_assoc.
Qed.

(** The registry answers 200 with a document that has the marker. *)
Lemma fetch_validation_witness :
  let w := sample_world sample_table (Some (200%Z, sample_doc)) in
  let valid := 200%Z = 200%Z /\ occurs_in marker sample_doc in
  ((exists w', run download_ieee_oui_file w = (Ok true, w')) <-> valid) /\
  (valid ->
   exists w', run download_ieee_oui_file w = (Ok true, w') /\
     files w' = <[oui_path w := sample_doc]> (files w) /\
     files w' !! oui_path w = Some sample_doc /\
     events w' = events w ++ [EvGet IEEE_URL; EvWrite (oui_path w)]) /\
  (~ valid ->
   exists w', run download_ieee_oui_file w = (Ok false, w') /\
     files w' = files w /\
     events w' = events w ++ [EvGet IEEE_URL] /\
     stdout w' = stdout w
       ++ info_line (text "Downloading latest copy of OUI data from IEEE...") [LF]
       ++ error_line (text "Got status code " ++ str_of_int 200
                      ++ text " while downloading")).
Proof.
  intros w.
  apply (fetch_validation w 200 sample_doc); reflexivity.
Defined.



(** C7: when the backup and the fetch have succeeded and the merge loop
    ends with its counter at zero, [main] returns 0, which is the exit
    status.  Since the fetch, the script has read the backup and the fetched
    document and nothing else: the updated file was not written, the install
    copy was not made, and every file is as the fetch left it. *)
Theorem no_new_records_is_success (w : World) (backup_copy : string)
    (w1 w2 : World) (buf : str) (w3 : World) :
  euid w = 0%Z ->
  run backup_nmap_oui_file (emit banner_text w) = (Ok backup_copy, w1) ->
  run download_ieee_oui_file w1 = (Ok true, w2) ->
  run (merge_records backup_copy) w2 = (Ok (buf, 0%Z), w3) ->
  exists w',
    run main w = (Ok 0%Z, w') /\
    script w = (0%Z, w') /\
    run (parse_oui_file backup_copy) w2
      = (Ok false, emit (done_line ++ info_line (text "No new records!") [LF]) w3) /\
    events w' = events w2 ++ [EvRead backup_copy; EvRead (oui_path w2)] /\
    files w' = files w2.
Proof.
  intros Hroot Hbackup Hfetch Hmerge.
  assert (run (parse_oui_file backup_copy) w2
          = (Ok false, emit (done_line ++ info_line (text "No new records!") [LF]) w3))
    as Hparse by (by rewrite parse_oui_file_run, Hmerge).
  assert (run main w
          = (Ok 0%Z, emit done_son
                       (emit (done_line ++ info_line (text "No new records!") [LF]) w3)))
    as Hmain by (by rewrite (main_run_root w Hroot), Hbackup, Hfetch, Hparse).
  eexists. split; [exact Hmain|]. split; [unfold script; by rewrite Hmain|].
  split; [exact Hparse|].
  apply merge_records_ok in Hmerge as (b & d & _ & _ & Hloop).
  apply merge_lines_printed_only in Hloop.
  simpl. rewrite (printed_only_events _ _ Hloop), (printed_only_files _ _ Hloop).
  split; [|done]. simpl. by rewrite <- app_assoc.
Qed.

(** The registry lists the one prefix the table has. *)
Lemma no_new_records_is_success_witness :
  let w := sample_world sample_table
             (Some (200%Z, registry_line "001122" "Acme Corp" ++ [CR; LF])) in
  let r1 := run backup_nmap_oui_file (emit banner_text w) in
  let r2 := run download_ieee_oui_file r1.2 in
  let r3 := run (merge_records sample_backup) r2.2 in
  r3.1 = Ok (sample_table, 0%Z) /\
  exists w',
    run main w = (Ok 0%Z, w') /\
    script w = (0%Z, w') /\
    run (parse_oui_file sample_backup) r2.2
      = (Ok false, emit (done_line ++ info_line (text "No new records!") [LF]) r3.2) /\
    events w' = events r2.2 ++ [EvRead sample_backup; EvRead (oui_path r2.2)] /\
    files w' = files r2.2.
Proof.
  intros w r1 r2 r3. split; [vm_compute; reflexivity|].
  apply (no_new_records_is_success w sample_backup r1.2 r2.2 sample_table r3.2);
    vm_compute; reflexivity.
Defined.

(** C6: the install copy that fails does not make [main] return 4.  With
    the installed table on a read-only mount the four earlier stages succeed,
    the merged file is written, and the copy raises; nothing catches the
    error, so the interpreter ends with status 1, the code of the privilege
    check.  The merged file stays where it was written.  In no world does
    [main] return 4, because [apply_updated_file] returns [True] or
    raises. *)
Theorem install_failure_exit_status :
  (exists w',
     run main readonly_world = (Raise (PermissionError NMAP_OUI), w') /\
     files w' !! "/opt/oui/nmap-mac-prefixes_updated" = Some sample_merged /\
     files w' !! NMAP_OUI = Some sample_table) /\
  (script readonly_world).1 = 1%Z /\
  (forall (w : World) (b : bool) (w' : World),
     run apply_updated_file w = (Ok b, w') -> b = true) /\
  (forall (w w' : World), run main w <> (Ok 4%Z, w')).
Proof.
  split; [|split; [|split]].
  - eexists. split; [vm_compute; reflexivity|]. split; vm_compute; reflexivity.
  - vm_compute. reflexivity.
  - apply apply_updated_file_true.
  - intros w w'. destruct (Z.eq_dec (euid w) 0%Z) as [Hroot|Hroot].
    + rewrite (main_run_root w Hroot).
      destruct (run backup_nmap_oui_file _) as [[backup_copy|e] w1]; [|done].
      destruct (run download_ieee_oui_file w1) as [[[]|e] w2]; [| |done].
      * destruct (run (parse_oui_file backup_copy) w2) as [[[]|e] w3]; [| |done].
        -- destruct (run apply_updated_file w3) as [[[]|e] w4] eqn:Happly;
             [congruence| |congruence].
           by apply apply_updated_file_true in Happly.
        -- congruence.
      * congruence.
    + rewrite (main_run_not_root w Hroot). congruence.
Qed.

(** * Further properties *)

(** ** Paths *)

Lemma last_char_app (a b : string) :
  b <> EmptyString -> last_char (a +:+ b) = last_char b.
Proof.
  intros Hb. induction a as [|c a IH]; [done|]. simpl.
  destruct (a +:+ b) eqn:E; [|done].
  destruct a; [by simpl in E | by simpl in E].
Qed.

Lemma substring_last (s : string) :
  substring (String.length s - 1) 1 s =
  match last_char s with
  | Some c => String c EmptyString
  | None => EmptyString
  end.
Proof.
  induction s as [|c s IH]; [done|].
  destruct s as [|d s]; [done|].
  change (last_char (String c (String d s))) with (last_char (String d s)).
  rewrite <- IH. cbn [String.length].
  replace (S (S (String.length s)) - 1)%nat with (S (String.length s)) by lia.
  replace (S (String.length s) - 1)%nat with (String.length s) by lia.
  reflexivity.
Qed.

Lemma string_app_cons (x : ascii) (a b : string) :
  String x a +:+ b = String x (a +:+ b).
Proof. reflexivity. Qed.

Lemma string_app_assoc (a b c : string) : (a +:+ b) +:+ c = a +:+ (b +:+ c).
Proof. induction a as [|x a IH]; [done|]. by rewrite !string_app_cons, IH. Qed.

Lemma path_join_relative (a b : string) :
  match b with String "/" _ => False | _ => True end ->
  path_join a b = dir_prefix a +:+ b.
Proof.
  intros Hb. unfold path_join, dir_prefix.
  assert ((if bool_decide (a = EmptyString) then b
           else if String.eqb (substring (String.length a - 1) 1 a) "/" then a +:+ b
                else a +:+ "/" +:+ b)
          = (if bool_decide (a = EmptyString) then EmptyString
             else if String.eqb (substring (String.length a - 1) 1 a) "/" then a
                  else a +:+ "/") +:+ b) as H.
  { destruct (bool_decide _); [done|].
    destruct (String.eqb _ _); [done|]. by rewrite string_app_assoc. }
  destruct b as [|c b]; [exact H|].
  destruct c as [[] [] [] [] [] [] [] []]; try exact H. done.
Qed.

Lemma oui_path_shape (w : World) :
  oui_path w = dir_prefix (program_dir w) +:+ "ieee_oui_data.txt".
Proof. by apply path_join_relative. Qed.

Lemma updated_path_shape (w : World) :
  updated_path w = dir_prefix (program_dir w) +:+ "nmap-mac-prefixes_updated".
Proof. by apply path_join_relative. Qed.

Lemma backup_dir_shape (w : World) :
  backup_dir w = dir_prefix (program_dir w) +:+ "backups".
Proof. by apply path_join_relative. Qed.

Lemma backup_path_shape (w : World) :
  backup_path w =
  dir_prefix (program_dir w) +:+ "backups/nmap-mac-prefixes." +:+ timestamp w.
Proof.
  unfold backup_path. rewrite path_join_relative by done.
  assert (dir_prefix (backup_dir w) = backup_dir w +:+ "/") as ->.
  { unfold dir_prefix. rewrite substring_last, backup_dir_shape.
    rewrite last_char_app by done. simpl.
    destruct (dir_prefix (program_dir w)); rewrite bool_decide_eq_false_2; done. }
  rewrite backup_dir_shape. unfold backup_name.
  by rewrite !string_app_assoc.
Qed.

(** ** The backup stage *)

Lemma run_isdir (p : string) (w : World) :
  run (isdir p) w = (Ok (bool_decide (p ∈ dirs w)), log (EvIsdir p) w).
Proof. reflexivity. Qed.

Lemma run_mkdir (p : string) (w : World) :
  run (mkdir p) w =
  if bool_decide (p ∈ dirs w) || bool_decide (is_Some (files w !! p))
  then (Raise (FileExistsError p), log (EvMkdir p) w)
  else if bool_decide (p ∈ unwritable w) then (Raise (PermissionError p), log (EvMkdir p) w)
  else (Ok tt, add_dir p (log (EvMkdir p) w)).
Proof. reflexivity. Qed.

(** [backup_nmap_oui_file], step by step: nothing to do for the directory
    when it is there, else [os.mkdir], which can fail; then the copy. *)
Lemma backup_nmap_oui_file_run (w : World) :
  run backup_nmap_oui_file w =
  let w1 := with_backup_dir w in
  let w2 := log (EvCopy NMAP_OUI (backup_path w)) (emit (backup_file_line w) w1) in
  let copy :=
    if bool_decide (NMAP_OUI = backup_path w)
    then (Raise (SameFileError NMAP_OUI), w2)
    else match open_read NMAP_OUI w1 with
         | Raise e => (Raise e, w2)
         | Ok s =>
             match open_write (backup_path w) w1 with
             | Raise e => (Raise e, w2)
             | Ok _ => (Ok (backup_path w), store (backup_path w) s w2)
             end
         end in
  if bool_decide (backup_dir w ∈ dirs w) then copy
  else if bool_decide (is_Some (files w !! backup_dir w))
  then (Raise (FileExistsError (backup_dir w)),
        log (EvMkdir (backup_dir w))
          (emit (backup_dir_line w) (log (EvIsdir (backup_dir w)) w)))
  else if bool_decide (backup_dir w ∈ unwritable w)
  then (Raise (PermissionError (backup_dir w)),
        log (EvMkdir (backup_dir w))
          (emit (backup_dir_line w) (log (EvIsdir (backup_dir w)) w)))
  else copy.
Proof.
  unfold backup_nmap_oui_file, with_backup_dir. step. rewrite run_bind, run_isdir.
  cbv beta iota zeta. fold (backup_dir w).
  destruct (bool_decide (backup_dir w ∈ dirs w)) eqn:Hdir; cbn [negb].
  - do 4 step. unfold backup_path, backup_name, backup_file_line, backup_name.
    change (timestamp (log ?e w)) with (timestamp w).
    destruct (bool_decide (NMAP_OUI = _)); [done|].
    destruct (open_read NMAP_OUI w); [|done].
    by destruct (open_write _ w).
  - rewrite run_bind, run_bind, run_print_info, run_mkdir. cbv beta iota.
    change (dirs (emit ?s (log ?e w))) with (dirs w).
    change (files (emit ?s (log ?e w))) with (files w).
    change (unwritable (emit ?s (log ?e w))) with (unwritable w).
    rewrite Hdir. cbn [orb]. unfold backup_dir_line.
    destruct (bool_decide (is_Some _)); [done|].
    destruct (bool_decide (_ ∈ unwritable w)); [done|].
    do 3 step. unfold backup_path, backup_name, backup_file_line, backup_name.
    change (timestamp (add_dir ?p (log ?e (emit ?s (log ?e' w))))) with (timestamp w).
    destruct (bool_decide (NMAP_OUI = _)); [done|].
    destruct (open_read NMAP_OUI _); [|done].
    by destruct (open_write _ _).
Qed.

Lemma open_read_Ok (p : string) (w : World) (s : str) :
  open_read p w = Ok s <-> (p ∉ dirs w) /\ files w !! p = Some s.
Proof.
  unfold open_read. destruct (bool_decide_reflect (p ∈ dirs w)) as [Hd|Hd].
  - split; [done | by intros [? _]].
  - destruct (files w !! p) as [t|]; split; try done.
    + intros Heq. by injection Heq as ->.
    + intros [_ Heq]. by injection Heq as ->.
    + by intros [_ ?].
Qed.

Lemma files_with_backup_dir (w : World) : files (with_backup_dir w) = files w.
Proof. unfold with_backup_dir. by destruct (bool_decide _). Qed.

Lemma unwritable_with_backup_dir (w : World) :
  unwritable (with_backup_dir w) = unwritable w.
Proof. unfold with_backup_dir. by destruct (bool_decide _). Qed.

Lemma http_with_backup_dir (w : World) : http (with_backup_dir w) = http w.
Proof. unfold with_backup_dir. by destruct (bool_decide _). Qed.

Lemma program_dir_with_backup_dir (w : World) :
  program_dir (with_backup_dir w) = program_dir w.
Proof. unfold with_backup_dir. by destruct (bool_decide _). Qed.

Lemma dirs_with_backup_dir (w : World) :
  dirs (with_backup_dir w) = {[ backup_dir w ]} ∪ dirs w.
Proof.
  unfold with_backup_dir.
  destruct (bool_decide_reflect (backup_dir w ∈ dirs w)); simpl; [set_solver | done].
Qed.

Lemma events_with_backup_dir (w : World) :
  events (with_backup_dir w) = events w ++ backup_dir_events w.
Proof.
  unfold with_backup_dir, backup_dir_events.
  destruct (bool_decide _); simpl; [done | by rewrite <- app_assoc].
Qed.

(** When the backup stage returns, the copy was made. *)
Lemma backup_nmap_oui_file_ok (w : World) (dst : string) (w' : World) :
  run backup_nmap_oui_file w = (Ok dst, w') ->
  exists table,
    open_read NMAP_OUI (with_backup_dir w) = Ok table /\
    dst = backup_path w /\
    dst <> NMAP_OUI /\
    w' = store dst table
           (log (EvCopy NMAP_OUI dst) (emit (backup_file_line w) (with_backup_dir w))).
Proof.
  rewrite backup_nmap_oui_file_run. cbv zeta.
  assert (forall c : Result string * World,
            (if bool_decide (backup_dir w ∈ dirs w) then c
             else if bool_decide (is_Some (files w !! backup_dir w))
             then (Raise (FileExistsError (backup_dir w)),
                   log (EvMkdir (backup_dir w))
                     (emit (backup_dir_line w) (log (EvIsdir (backup_dir w)) w)))
             else if bool_decide (backup_dir w ∈ unwritable w)
             then (Raise (PermissionError (backup_dir w)),
                   log (EvMkdir (backup_dir w))
                     (emit (backup_dir_line w) (log (EvIsdir (backup_dir w)) w)))
             else c) = (Ok dst, w') -> c = (Ok dst, w')) as Hc.
  { intros c. destruct (bool_decide _); [done|].
    destruct (bool_decide _); [done|]. by destruct (bool_decide _). }
  intros H%Hc. revert H.
  destruct (bool_decide_reflect (NMAP_OUI = backup_path w)) as [|Hne]; [done|].
  destruct (open_read NMAP_OUI (with_backup_dir w)) as [table|]; [|done].
  destruct (open_write _ _); [|done]. intros [= <- <-]. by exists table.
Qed.

(** The backup is an exact copy: when [backup_nmap_oui_file] returns, it
    returns the path [backups/nmap-mac-prefixes.<timestamp>] under the
    program directory, that file holds what the installed table holds, the
    installed table and every other file are as they were, and the backup
    directory exists; it was made if it was not there and is not made
    again. *)
Theorem backup_is_exact_copy (w : World) (dst : string) (w' : World) :
  run backup_nmap_oui_file w = (Ok dst, w') ->
  exists table,
    files w !! NMAP_OUI = Some table /\
    dst = backup_path w /\
    dst <> NMAP_OUI /\
    files w' = <[dst := table]> (files w) /\
    files w' !! dst = Some table /\
    files w' !! NMAP_OUI = Some table /\
    dirs w' = {[ backup_dir w ]} ∪ dirs w /\
    events w' = events w
      ++ (if bool_decide (backup_dir w ∈ dirs w) then [EvIsdir (backup_dir w)]
          else [EvIsdir (backup_dir w); EvMkdir (backup_dir w)])
      ++ [EvCopy NMAP_OUI dst].
Proof.
  intros (table & Hread & -> & Hne & ->)%backup_nmap_oui_file_ok.
  apply open_read_Ok in Hread as [_ Hread]. rewrite files_with_backup_dir in Hread.
  exists table. simpl.
  rewrite files_with_backup_dir, dirs_with_backup_dir, events_with_backup_dir.
  repeat split; try done.
  - apply lookup_insert_eq.
  - by rewrite lookup_insert_ne.
  - by rewrite <- app_assoc.
Qed.

(** The first backup of a program directory: the directory is made. *)
Lemma backup_is_exact_copy_witness :
  let w := table_world {[ NMAP_OUI := sample_table ]} in
  exists table,
    files w !! NMAP_OUI = Some table /\
    sample_backup = backup_path w /\
    sample_backup <> NMAP_OUI /\
    files (run backup_nmap_oui_file w).2 = <[sample_backup := table]> (files w) /\
    files (run backup_nmap_oui_file w).2 !! sample_backup = Some table /\
    files (run backup_nmap_oui_file w).2 !! NMAP_OUI = Some table /\
    dirs (run backup_nmap_oui_file w).2 = {[ backup_dir w ]} ∪ dirs w /\
    events (run backup_nmap_oui_file w).2 = events w
      ++ (if bool_decide (backup_dir w ∈ dirs w) then [EvIsdir (backup_dir w)]
          else [EvIsdir (backup_dir w); EvMkdir (backup_dir w)])
      ++ [EvCopy NMAP_OUI sample_backup].
Proof.
  intros w.
  apply (backup_is_exact_copy w sample_backup (run backup_nmap_oui_file w).2).
  vm_compute. reflexivity.
Defined.

(** ** The four paths of a run *)

Lemma last_char_ne (a b : string) : last_char a <> last_char b -> a <> b.
Proof. congruence. Qed.

Lemma oui_path_ne_updated_path (w : World) : oui_path w <> updated_path w.
Proof.
  rewrite oui_path_shape, updated_path_shape. intros H.
  by apply (inj (String.app _)) in H.
Qed.

Lemma backup_path_ne_oui_path (w : World) : backup_path w <> oui_path w.
Proof.
  rewrite backup_path_shape, oui_path_shape. intros H.
  by apply (inj (String.app _)) in H.
Qed.

Lemma backup_path_ne_updated_path (w : World) : backup_path w <> updated_path w.
Proof.
  rewrite backup_path_shape, updated_path_shape. intros H.
  by apply (inj (String.app _)) in H.
Qed.

Lemma oui_path_ne_table (w : World) : oui_path w <> NMAP_OUI.
Proof.
  apply last_char_ne. rewrite oui_path_shape, last_char_app by done. done.
Qed.

Lemma updated_path_ne_table (w : World) : updated_path w <> NMAP_OUI.
Proof.
  apply last_char_ne. rewrite updated_path_shape, last_char_app by done. done.
Qed.

Lemma In_string_app (c : ascii) (a b : string) :
  In c (list_ascii_of_string (a +:+ b)) <->
  In c (list_ascii_of_string a) \/ In c (list_ascii_of_string b).
Proof.
  induction a as [|x a IH]; [simpl; tauto|].
  rewrite string_app_cons. simpl. rewrite IH. tauto.
Qed.

Lemma backup_path_ne_table (w : World) : backup_path w <> NMAP_OUI.
Proof.
  rewrite backup_path_shape. intros H.
  assert (In "."%char (list_ascii_of_string NMAP_OUI)) as Hdot.
  { rewrite <- H, !In_string_app. right. left. simpl. tauto. }
  simpl in Hdot. repeat (destruct Hdot as [Hdot|Hdot]; [discriminate|]). done.
Qed.

(** Whatever the program directory and the clock, the backup, the raw
    working file, the updated working file and the installed table are
    four different paths: no stage can overwrite the file of another by
    writing its own. *)
Theorem working_paths_distinct (w : World) :
  backup_path w <> oui_path w /\
  backup_path w <> updated_path w /\
  oui_path w <> updated_path w /\
  backup_path w <> NMAP_OUI /\
  oui_path w <> NMAP_OUI /\
  updated_path w <> NMAP_OUI.
Proof.
  repeat split.
  - apply backup_path_ne_oui_path.
  - apply backup_path_ne_updated_path.
  - apply oui_path_ne_updated_path.
  - apply backup_path_ne_table.
  - apply oui_path_ne_table.
  - apply updated_path_ne_table.
Qed.

(** ** What each stage leaves alone *)

Lemma same_env_refl (w : World) : same_env w w.
Proof. by repeat split. Qed.

Lemma same_env_trans (w1 w2 w3 : World) :
  same_env w1 w2 -> same_env w2 w3 -> same_env w1 w3.
Proof.
  intros (?&?&?&?&?&?) (?&?&?&?&?&?). repeat split; congruence.
Qed.

Lemma printed_only_same_env (w w' : World) : printed_only w w' -> same_env w w'.
Proof. intros [s ->]. by repeat split. Qed.

Lemma extracted_elem (lines : list str) (r : str * str) :
  r ∈ extracted lines ->
  exists line, line ∈ lines /\ str_in marker line = true /\ re_search line = Some r.
Proof.
  induction lines as [|line lines IH]; simpl; [by intros ?%elem_of_nil|].
  destruct (str_in marker line) eqn:Hm.
  - destruct (re_search line) as [groups|] eqn:Hre.
    + intros [->|Hin]%elem_of_cons.
      * exists line. split; [apply list_elem_of_here | done].
      * destruct (IH Hin) as (l & ? & ? & ?). exists l.
        split; [by apply list_elem_of_further | done].
    + intros Hin. destruct (IH Hin) as (l & ? & ? & ?). exists l.
      split; [by apply list_elem_of_further | done].
  - intros Hin. destruct (IH Hin) as (l & ? & ? & ?). exists l.
    split; [by apply list_elem_of_further | done].
Qed.

(** The merge stage that returns: what it read, what it found, and what
    it left behind. *)
Lemma parse_oui_file_ok (backup : string) (w : World) (found : bool) (w' : World) :
  run (parse_oui_file backup) w = (Ok found, w') ->
  exists (b d : str) (recs : list (str * str)),
    open_read backup w = Ok b /\
    open_read (oui_path w) w = Ok d /\
    recs `sublist_of` extracted (split_lf (universal_newlines d)) /\
    Forall (fun r => str_in r.1 (universal_newlines b) = false) recs /\
    Forall (fun r => recs = [] -> str_in r.1 (universal_newlines b) = true)
           (extracted (split_lf (universal_newlines d))) /\
    found = negb (bool_decide (recs = [])) /\
    files w' = (if found
                then <[updated_path w := universal_newlines b ++ records recs]> (files w)
                else files w) /\
    events w' = events w ++ [EvRead backup; EvRead (oui_path w)]
                ++ (if found then [EvWrite (updated_path w)] else []) /\
    same_env w w'.
Proof.
  rewrite parse_oui_file_run.
  destruct (run (merge_records backup) w) as [[[buf n]|e] w1] eqn:Hrun; [|done].
  apply merge_records_ok in Hrun as (b & d & Hb & Hd & Hloop).
  apply merge_lines_ok in Hloop as (recs & [= -> ->] & Hsub & Hnew & _ & Hp & Hall).
  assert (updated_path w1 = updated_path w) as ->.
  { unfold updated_path. by rewrite (printed_only_program_dir _ _ Hp). }
  assert (same_env w w1) as Henv by (by apply printed_only_same_env in Hp).
  assert (Forall (fun r => recs = [] -> str_in r.1 (universal_newlines b) = true)
            (extracted (split_lf (universal_newlines d)))) as Hold.
  { apply Forall_forall. intros r (line & Hin & Hm & Hre)%extracted_elem ->.
    rewrite Forall_forall in Hall. destruct (Hall line Hin Hm) as (oui & org & Hre' & Hs).
    rewrite Hre in Hre'. injection Hre' as ->. simpl in Hs.
    unfold records in Hs. simpl in Hs. by rewrite app_nil_r in Hs. }
  destruct recs as [|r recs].
  - simpl. intros [= <- <-]. exists b, d, []. simpl.
    rewrite (printed_only_files _ _ Hp), (printed_only_events _ _ Hp).
    repeat split; try done; try apply Henv. simpl. by rewrite <- app_assoc.
  - assert ((0 + Z.of_nat (length (r :: recs)) =? 0)%Z = false) as ->
      by (apply Z.eqb_neq; simpl length; lia).
    destruct (open_write (updated_path w) w1); [|done].
    intros [= <- <-]. exists b, d, (r :: recs). simpl.
    rewrite (printed_only_files _ _ Hp), (printed_only_events _ _ Hp).
    repeat split; try done; try apply Henv. simpl. by rewrite <- !app_assoc.
Qed.

Lemma download_ieee_oui_file_cases (w : World) (r : Result bool) (w' : World) :
  run download_ieee_oui_file w = (r, w') ->
  same_env w w' /\
  ((r = Ok true /\
    exists body,
      http w = Some (200%Z, body) /\ str_in marker body = true /\
      files w' = <[oui_path w := body]> (files w) /\
      events w' = events w ++ [EvGet IEEE_URL; EvWrite (oui_path w)]) \/
   (r <> Ok true /\ files w' = files w /\
    (http w = None -> r = Raise ConnectionError) /\
    (events w' = events w ++ [EvGet IEEE_URL] \/
     events w' = events w ++ [EvGet IEEE_URL; EvWrite (oui_path w)]))).
Proof.
  rewrite download_ieee_oui_file_run. cbv zeta.
  destruct (http w) as [[status_code body]|] eqn:Hhttp.
  - destruct (status_code =? 200)%Z eqn:Hs; cbn [andb].
    + apply Z.eqb_eq in Hs as ->.
      destruct (str_in marker body) eqn:Hm.
      * destruct (open_write (oui_path w) w).
        -- intros [= <- <-]. split; [by repeat split|]. left. split; [done|].
           exists body. repeat split; try done. simpl. by rewrite <- app_assoc.
        -- intros [= <- <-]. split; [by repeat split|]. right.
           repeat split; try done. right. simpl. by rewrite <- app_assoc.
      * intros [= <- <-]. split; [by repeat split|]. right.
        repeat split; try done. by left.
    + intros [= <- <-]. split; [by repeat split|]. right.
      repeat split; try done. by left.
  - intros [= <- <-]. split; [by repeat split|]. right.
    repeat split; try done. by left.
Qed.

Lemma apply_updated_file_cases (w : World) (r : Result bool) (w' : World) :
  run apply_updated_file w = (r, w') ->
  same_env w w' /\
  events w' = events w ++ [EvCopy (updated_path w) NMAP_OUI] /\
  ((r = Ok true /\
    exists s, open_read (updated_path w) w = Ok s /\
              files w' = <[NMAP_OUI := s]> (files w)) \/
   ((exists e, r = Raise e) /\ files w' = files w)).
Proof.
  rewrite apply_updated_file_run. cbv zeta.
  destruct (bool_decide _).
  { intros [= <- <-]. split; [by repeat split|]. split; [done|]. right. eauto. }
  destruct (open_read (updated_path w) w) as [s|e] eqn:Hread.
  - destruct (open_write NMAP_OUI w).
    + intros [= <- <-]. split; [by repeat split|]. split; [done|]. left. eauto.
    + intros [= <- <-]. split; [by repeat split|]. split; [done|]. right. eauto.
  - intros [= <- <-]. split; [by repeat split|]. split; [done|]. right. eauto.
Qed.

(** The merge stage when it raises: nothing is written. *)
Lemma parse_oui_file_raise (backup : string) (w : World) (e : Exn) (w' : World) :
  run (parse_oui_file backup) w = (Raise e, w') ->
  same_env w w' /\ files w' = files w.
Proof.
  rewrite parse_oui_file_run, merge_records_run.
  destruct (open_read backup w) as [b|eb].
  2:{ intros [= <- <-]. split; [by repeat split | done]. }
  destruct (open_read (oui_path w) w) as [d|ed].
  2:{ intros [= <- <-]. split; [by repeat split | done]. }
  destruct (run (merge_lines _ _) _) as [[[buf n]|el] w1] eqn:Hloop.
  - apply merge_lines_printed_only in Hloop as [s ->].
    destruct (n =? 0)%Z; [done|].
    destruct (open_write _ _); [done|]. intros [= <- <-].
    split; [by repeat split | done].
  - apply merge_lines_printed_only in Hloop as [s ->].
    intros [= <- <-]. split; [by repeat split | done].
Qed.

Lemma same_env_paths (w w' : World) :
  same_env w w' ->
  oui_path w' = oui_path w /\ updated_path w' = updated_path w /\
  backup_path w' = backup_path w.
Proof.
  intros (_ & Hdir & Hts & _). unfold backup_path, backup_dir, backup_name,
    oui_path, updated_path. by rewrite Hdir, Hts.
Qed.

(** The world the backup stage returns in, seen from the world it started
    in. *)
Lemma backup_nmap_oui_file_env (w : World) (dst : string) (w' : World) :
  run backup_nmap_oui_file w = (Ok dst, w') ->
  euid w' = euid w /\ program_dir w' = program_dir w /\
  timestamp w' = timestamp w /\ unwritable w' = unwritable w /\
  http w' = http w /\ backup_path w ∉ dirs w'.
Proof.
  rewrite backup_nmap_oui_file_run. cbv zeta.
  assert (forall c : Result string * World,
            (if bool_decide (backup_dir w ∈ dirs w) then c
             else if bool_decide (is_Some (files w !! backup_dir w))
             then (Raise (FileExistsError (backup_dir w)),
                   log (EvMkdir (backup_dir w))
                     (emit (backup_dir_line w) (log (EvIsdir (backup_dir w)) w)))
             else if bool_decide (backup_dir w ∈ unwritable w)
             then (Raise (PermissionError (backup_dir w)),
                   log (EvMkdir (backup_dir w))
                     (emit (backup_dir_line w) (log (EvIsdir (backup_dir w)) w)))
             else c) = (Ok dst, w') -> c = (Ok dst, w')) as Hc.
  { intros c. destruct (bool_decide _); [done|].
    destruct (bool_decide _); [done|]. by destruct (bool_decide _). }
  intros H%Hc. revert H.
  destruct (bool_decide (NMAP_OUI = backup_path w)); [done|].
  destruct (open_read NMAP_OUI (with_backup_dir w)); [|done].
  unfold open_write.
  destruct (bool_decide_reflect (backup_path w ∈ dirs (with_backup_dir w))) as [|Hnd];
    [done|].
  destruct (bool_decide (backup_path w ∈ unwritable _)); [done|].
  intros [= <- <-]. simpl. clear Hc.
  unfold with_backup_dir in *. by destruct (bool_decide (backup_dir w ∈ dirs w)).
Qed.

(** The backup stage that raises has written no file and made no
    request. *)
Lemma backup_nmap_oui_file_raise (w : World) (e : Exn) (w' : World) :
  run backup_nmap_oui_file w = (Raise e, w') ->
  files w' = files w /\
  exists evs, events w' = events w ++ evs /\ Forall (fun ev => is_get ev = false) evs.
Proof.
  rewrite backup_nmap_oui_file_run. cbv zeta.
  assert (exists evs,
            events (log (EvCopy NMAP_OUI (backup_path w))
                      (emit (backup_file_line w) (with_backup_dir w)))
            = events w ++ evs /\ Forall (fun ev => is_get ev = false) evs) as Hcopy.
  { exists (backup_dir_events w ++ [EvCopy NMAP_OUI (backup_path w)]). simpl.
    rewrite events_with_backup_dir, <- app_assoc. split; [done|].
    unfold backup_dir_events. destruct (bool_decide _); by repeat constructor. }
  assert (exists evs,
            events (log (EvMkdir (backup_dir w))
                      (emit (backup_dir_line w) (log (EvIsdir (backup_dir w)) w)))
            = events w ++ evs /\ Forall (fun ev => is_get ev = false) evs) as Hmk.
  { exists [EvIsdir (backup_dir w); EvMkdir (backup_dir w)]. simpl.
    rewrite <- app_assoc. split; [done | by repeat constructor]. }
  assert (forall c : Result string * World,
            c = (if bool_decide (NMAP_OUI = backup_path w)
                 then (Raise (SameFileError NMAP_OUI),
                       log (EvCopy NMAP_OUI (backup_path w))
                         (emit (backup_file_line w) (with_backup_dir w)))
                 else match open_read NMAP_OUI (with_backup_dir w) with
                      | Raise e0 =>
                          (Raise e0, log (EvCopy NMAP_OUI (backup_path w))
                                       (emit (backup_file_line w) (with_backup_dir w)))
                      | Ok s =>
                          match open_write (backup_path w) (with_backup_dir w) with
                          | Raise e0 =>
                              (Raise e0, log (EvCopy NMAP_OUI (backup_path w))
                                           (emit (backup_file_line w) (with_backup_dir w)))
                          | Ok _ =>
                              (Ok (backup_path w),
                               store (backup_path w) s
                                 (log (EvCopy NMAP_OUI (backup_path w))
                                    (emit (backup_file_line w) (with_backup_dir w))))
                          end
                      end) ->
            c = (Raise e, w') ->
            files w' = files w /\
            exists evs, events w' = events w ++ evs /\
                        Forall (fun ev => is_get ev = false) evs) as Hc.
  { intros c ->.
    destruct (bool_decide _).
    { intros [= <- <-]. split; [apply files_with_backup_dir | exact Hcopy]. }
    destruct (open_read _ _).
    - destruct (open_write _ _); [done|].
      intros [= <- <-]. split; [apply files_with_backup_dir | exact Hcopy].
    - intros [= <- <-]. split; [apply files_with_backup_dir | exact Hcopy]. }
  destruct (bool_decide (backup_dir w ∈ dirs w)); [by apply Hc|].
  destruct (bool_decide (is_Some _)).
  { intros [= <- <-]. split; [done | exact Hmk]. }
  destruct (bool_decide (_ ∈ unwritable w)).
  { intros [= <- <-]. split; [done | exact Hmk]. }
  by apply Hc.
Qed.

(** ** The orchestrator, end to end *)



Lemma paths_of_program_dir (w w' : World) :
  program_dir w' = program_dir w -> timestamp w' = timestamp w ->
  oui_path w' = oui_path w /\ updated_path w' = updated_path w /\
  backup_path w' = backup_path w.
Proof.
  intros Hdir Hts. unfold backup_path, backup_dir, backup_name, oui_path, updated_path.
  by rewrite Hdir, Hts.
Qed.

(** The files the backup stage leaves, seen from the world it started in. *)
Lemma backup_nmap_oui_file_files (w : World) (dst : string) (w' : World) :
  run backup_nmap_oui_file w = (Ok dst, w') ->
  exists table,
    files w !! NMAP_OUI = Some table /\ dst = backup_path w /\
    files w' = <[dst := table]> (files w).
Proof.
  intros (table & Hread & -> & Hne & ->)%backup_nmap_oui_file_ok.
  apply open_read_Ok in Hread as [_ Hread]. rewrite files_with_backup_dir in Hread.
  exists table. simpl. by rewrite files_with_backup_dir.
Qed.



Lemma backup_keeps_table (w : World) (r : Result string) (w' : World) :
  run backup_nmap_oui_file w = (r, w') ->
  files w' !! NMAP_OUI = files w !! NMAP_OUI.
Proof.
  destruct r as [dst|e].
  - intros (table & _ & -> & ->)%backup_nmap_oui_file_files.
    apply lookup_insert_ne, backup_path_ne_table.
  - by intros [-> _]%backup_nmap_oui_file_raise.
Qed.

Lemma download_keeps_table (w : World) (r : Result bool) (w' : World) :
  run download_ieee_oui_file w = (r, w') ->
  files w' !! NMAP_OUI = files w !! NMAP_OUI.
Proof.
  intros [_ [[_ (body & _ & _ & -> & _)] | (_ & -> & _)]]%download_ieee_oui_file_cases;
    [|done].
  apply lookup_insert_ne, oui_path_ne_table.
Qed.

Lemma parse_keeps_table (backup : string) (w : World) (r : Result bool) (w' : World) :
  run (parse_oui_file backup) w = (r, w') ->
  files w' !! NMAP_OUI = files w !! NMAP_OUI.
Proof.
  destruct r as [found|e].
  - intros (b & d & recs & _ & _ & _ & _ & _ & _ & -> & _)%parse_oui_file_ok.
    destruct found; [|done]. apply lookup_insert_ne, updated_path_ne_table.
  - by intros [_ ->]%parse_oui_file_raise.
Qed.



(** ** The fetch and the install stage, whatever happens *)





(** ** The lines of the document *)

Lemma split_lf_cons_inv (s : str) : exists l ls, split_lf s = l :: ls.
Proof.
  destruct s as [|c s]; simpl; [by eexists _, _|].
  destruct (c =? LF); [by eexists _, _|].
  destruct (split_lf s); by eexists _, _.
Qed.

Lemma split_lf_no_lf (s : str) :
  Forall (Forall (fun c => c <> LF)) (split_lf s).
Proof.
  induction s as [|c s IH]; simpl; [by repeat constructor|].
  destruct (N.eqb_spec c LF) as [->|Hne]; [by constructor|].
  destruct (split_lf s) as [|l ls]; [by repeat constructor|].
  inversion IH; subst. by repeat constructor.
Qed.

Lemma join_lf_cons (l l' : str) (ls : list str) :
  join_lf (l :: l' :: ls) = l ++ LF :: join_lf (l' :: ls).
Proof. reflexivity. Qed.

(** Splitting at the line feeds loses nothing: joining the pieces with line
    feeds gives the document back, no piece has a line feed in it, and there
    is one piece more than there are line feeds, so that the empty document
    is one empty line. *)
Theorem split_lf_round_trip (s : str) :
  join_lf (split_lf s) = s /\
  Forall (Forall (fun c => c <> LF)) (split_lf s) /\
  length (split_lf s) = S (length (filter (fun c => c = LF) s)).
Proof.
  split; [|split; [apply split_lf_no_lf|]].
  - induction s as [|c s IH]; [done|]. simpl.
    destruct (N.eqb_spec c LF) as [->|Hne].
    + destruct (split_lf_cons_inv s) as (l & ls & E). rewrite E in *.
      by rewrite join_lf_cons, IH.
    + destruct (split_lf s) as [|l [|l' ls]].
      * simpl in IH. by subst.
      * simpl in *. by subst.
      * rewrite join_lf_cons. rewrite join_lf_cons in IH. by rewrite <- IH.
  - induction s as [|c s IH]; [done|]. simpl.
    destruct (N.eqb_spec c LF) as [->|Hne].
    + rewrite filter_cons_True by done. simpl. by rewrite IH.
    + rewrite filter_cons_False by done.
      destruct (split_lf s) as [|l ls]; [done|]. by rewrite <- IH.
Qed.

(** ** The pattern and the record *)

(** The pattern, as a description of the line: the search succeeds exactly
    on six hexadecimal digits, one or more spaces, the marker, two tabs and
    a rest, and then yields the six digits and the rest up to its first line
    feed. *)
Theorem extraction_pattern_meaning (line oui org : str) :
  re_search line = Some (oui, org) <->
  exists (k : nat) (rest : str),
    length oui = 6%nat /\
    forallb is_hex oui = true /\
    line = oui ++ repeat SPACE (S k) ++ marker ++ [TAB; TAB] ++ org ++ rest /\
    (LF ∉ org) /\
    (rest = [] \/ exists r, rest = LF :: r).
Proof. apply re_search_spec. Qed.

Lemma lstrip_split (s : str) :
  exists sp, s = sp ++ lstrip s /\ Forall (fun c => is_space c = true) sp.
Proof.
  induction s as [|c s (sp & IH & Hsp)]; [by exists []|]. simpl.
  destruct (is_space c) eqn:Hc.
  - exists (c :: sp). split; [simpl; by rewrite <- IH | by constructor].
  - by exists [].
Qed.

Lemma lstrip_head (s : str) :
  match lstrip s with
  | [] => True
  | c :: _ => is_space c = false
  end.
Proof.
  induction s as [|c s IH]; [done|]. simpl.
  destruct (is_space c) eqn:Hc; [exact IH | exact Hc].
Qed.

(** [strip] takes the white space off both ends and nothing else. *)
Lemma strip_spec (s : str) :
  exists before after,
    s = before ++ strip s ++ after /\
    Forall (fun c => is_space c = true) before /\
    Forall (fun c => is_space c = true) after /\
    match strip s with [] => True | c :: _ => is_space c = false end /\
    match rev (strip s) with [] => True | c :: _ => is_space c = false end.
Proof.
  unfold strip.
  destruct (lstrip_split s) as (before & Hs & Hbefore).
  destruct (lstrip_split (rev (lstrip s))) as (after & Hr & Hafter).
  pose proof (lstrip_head s) as Hhead.
  pose proof (lstrip_head (rev (lstrip s))) as Hlast.
  set (t := lstrip s) in *. set (u := lstrip (rev t)) in *.
  assert (t = rev u ++ rev after) as Ht.
  { rewrite <- (rev_involutive t), Hr. apply rev_app_distr. }
  exists before, (rev after). repeat split.
  - by rewrite <- Ht.
  - done.
  - by apply Forall_rev.
  - destruct (rev u) as [|c v] eqn:Hu; [done|].
    rewrite Ht in Hhead. exact Hhead.
  - by rewrite rev_involutive.
Qed.

(** The line a new prefix is given.  For a line of the loop that the
    pattern matches, group 2 is the whole rest of the line after the two
    tabs, and the record is the six hexadecimal digits, one space, the rest
    of the line without the white space at its two ends, and a line feed;
    there is no other line feed in it, so it is one line of the table. *)
Theorem appended_record_shape (doc line oui org : str) :
  line ∈ split_lf doc ->
  re_search line = Some (oui, org) ->
  exists (k : nat) (name : str),
    line = oui ++ repeat SPACE (S k) ++ marker ++ [TAB; TAB] ++ org /\
    length oui = 6%nat /\
    forallb is_hex oui = true /\
    record oui org = oui ++ [SPACE] ++ name ++ [LF] /\
    (exists before after,
       org = before ++ name ++ after /\
       Forall (fun c => is_space c = true) before /\
       Forall (fun c => is_space c = true) after) /\
    match name with [] => True | c :: _ => is_space c = false end /\
    match rev name with [] => True | c :: _ => is_space c = false end /\
    Forall (fun c => c <> LF) (oui ++ [SPACE] ++ name).
Proof.
  intros Hin Hre.
  assert (Forall (fun c => c <> LF) line) as Hline.
  { pose proof (split_lf_no_lf doc) as H. rewrite Forall_forall in H. by apply H. }
  destruct (re_search_Forall _ _ _ _ Hline Hre) as [Houi Horg].
  apply re_search_spec in Hre as (k & rest & Hlen & Hhex & Heq & _ & Hrest).
  assert (rest = []) as ->.
  { destruct Hrest as [->|[r ->]]; [done|]. rewrite Heq in Hline.
    rewrite !Forall_app in Hline. destruct Hline as (_ & _ & _ & _ & _ & Hr).
    by inversion Hr. }
  rewrite app_nil_r in Heq.
  destruct (strip_spec org) as (before & after & Hsplit & Hb & Ha & Hhead & Hlast).
  exists k, (strip org). repeat split; try done.
  - by exists before, after.
  - repeat (apply Forall_app; split); [done | by repeat constructor |].
    by apply strip_Forall.
Qed.

(** A registry line with white space after the name. *)
Lemma appended_record_shape_witness :
  let line := registry_line "AABBCC" "Widget Inc  " in
  let doc := registry_line "001122" "Acme Corp" ++ [LF] ++ line in
  let oui := text "AABBCC" in
  let org := text "Widget Inc  " in
  record oui org = text "AABBCC Widget Inc" ++ [LF] /\
  exists (k : nat) (name : str),
    line = oui ++ repeat SPACE (S k) ++ marker ++ [TAB; TAB] ++ org /\
    length oui = 6%nat /\
    forallb is_hex oui = true /\
    record oui org = oui ++ [SPACE] ++ name ++ [LF] /\
    (exists before after,
       org = before ++ name ++ after /\
       Forall (fun c => is_space c = true) before /\
       Forall (fun c => is_space c = true) after) /\
    match name with [] => True | c :: _ => is_space c = false end /\
    match rev name with [] => True | c :: _ => is_space c = false end /\
    Forall (fun c => c <> LF) (oui ++ [SPACE] ++ name).
Proof.
  intros line doc oui org. split; [reflexivity|].
  apply (appended_record_shape doc line oui org); [|reflexivity].
  vm_compute. apply list_elem_of_further, list_elem_of_here.
Defined.

(** ** What the merge stage reports and writes *)

(** The merge stage finds something exactly when something is missing: when
    [parse_oui_file] returns, it returns [True] if and only if the pattern
    extracts from some line of the document a prefix that does not occur in
    the backup.  A document without a matching line gives [False]. *)
Theorem update_iff_fresh_prefix (backup : string) (w : World) (found : bool)
    (w' : World) :
  run (parse_oui_file backup) w = (Ok found, w') ->
  exists b d,
    open_read backup w = Ok b /\
    open_read (oui_path w) w = Ok d /\
    (found = true <->
     Exists (fun r => str_in r.1 (universal_newlines b) = false)
            (extracted (split_lf (universal_newlines d)))).
Proof.
  intros (b & d & recs & Hb & Hd & Hsub & Hnew & Hold & -> & _)%parse_oui_file_ok.
  exists b, d. split; [done|]. split; [done|]. split.
  - destruct recs as [|r recs]; [done|]. intros _.
    apply Exists_exists. exists r. split.
    + eapply elem_of_sublist; [apply list_elem_of_here | exact Hsub].
    + by inversion Hnew.
  - intros (r & Hin & Hfresh)%Exists_exists.
    destruct recs as [|r' recs]; [|done].
    rewrite Forall_forall in Hold. rewrite (Hold r Hin eq_refl) in Hfresh. done.
Qed.

(** The scenario: AABBCC is not in the table. *)
Lemma update_iff_fresh_prefix_witness :
  let w := staged_world sample_table sample_doc in
  exists b d,
    open_read sample_backup w = Ok b /\
    open_read (oui_path w) w = Ok d /\
    (true = true <->
     Exists (fun r => str_in r.1 (universal_newlines b) = false)
            (extracted (split_lf (universal_newlines d)))).
Proof.
  intros w.
  apply (update_iff_fresh_prefix sample_backup w true
           (run (parse_oui_file sample_backup) w).2).
  vm_compute. reflexivity.
Defined.

Lemma readlines_line (l rest : str) :
  Forall (fun c => c <> LF) l ->
  readlines (l ++ LF :: rest) = (l ++ [LF]) :: readlines rest.
Proof.
  induction 1 as [|c l Hc _ IH]; [done|]. simpl.
  apply N.eqb_neq in Hc. by rewrite Hc, IH.
Qed.

Lemma readlines_records (recs : list (str * str)) :
  Forall (fun r => Forall (fun c => c <> LF) r.1 /\ Forall (fun c => c <> LF) r.2) recs ->
  readlines (records recs) = map (fun r => record r.1 r.2) recs.
Proof.
  induction 1 as [|[oui org] recs [Ho Hg] _ IH]; [done|].
  rewrite records_cons. simpl in Ho, Hg. simpl map. rewrite <- IH.
  unfold record. change (text " ") with [SPACE].
  replace ((oui ++ [SPACE] ++ strip org ++ [LF]) ++ records recs)
    with ((oui ++ [SPACE] ++ strip org) ++ LF :: records recs)
    by (by rewrite <- !app_assoc).
  rewrite readlines_line; [by rewrite <- !app_assoc|].
  repeat (apply Forall_app; split); [done | by repeat constructor |].
  by apply strip_Forall.
Qed.

Lemma extracted_length (lines : list str) :
  (length (extracted lines) <= length lines)%nat.
Proof.
  induction lines as [|line lines IH]; simpl; [lia|].
  destruct (str_in marker line); [|lia].
  destruct (re_search line); simpl; lia.
Qed.



(** The merged file has the line ends of the system: whatever the line
    ends of the table and of the registry document, the file the merge
    stage writes has no carriage return in it, and text mode reads it back
    as it is. *)
Theorem merged_file_has_no_cr (backup : string) (w w' : World) :
  run (parse_oui_file backup) w = (Ok true, w') ->
  exists out,
    files w' !! updated_path w = Some out /\
    no_cr out /\
    universal_newlines out = out.
Proof.
  intros (b & d & recs & _ & _ & Hsub & _ & _ & _ & Hf & _)%parse_oui_file_ok.
  exists (universal_newlines b ++ records recs).
  assert (no_cr (universal_newlines b ++ records recs)) as Hcr
    by (by apply (merged_no_cr b d)).
  split; [rewrite Hf; apply lookup_insert_eq|]. split; [done|].
  by apply universal_newlines_id.
Qed.

(** A table and a document with carriage returns before the line feeds. *)
Lemma merged_file_has_no_cr_witness :
  let w := staged_world (text "001122 Acme Corp" ++ [CR; LF]) sample_doc in
  exists out,
    files (run (parse_oui_file sample_backup) w).2 !! updated_path w = Some out /\
    no_cr out /\
    universal_newlines out = out.
Proof.
  intros w.
  apply (merged_file_has_no_cr sample_backup w (run (parse_oui_file sample_backup) w).2).
  vm_compute. reflexivity.
Defined.

Lemma download_ieee_oui_file_false (w w' : World) :
  run download_ieee_oui_file w = (Ok false, w') ->
  exists status_code body,
    http w = Some (status_code, body) /\
    (status_code =? 200)%Z && str_in marker body = false.
Proof.
  rewrite download_ieee_oui_file_run. cbv zeta.
  destruct (http w) as [[status_code body]|]; [|done].
  destruct ((status_code =? 200)%Z && str_in marker body) eqn:Hvalid.
  - by destruct (open_write _ w).
  - intros _. by exists status_code, body.
Qed.

(** What the code 2 tells.  If [main] returns 2, the process was root, the
    table was installed and backed up, and the registry did answer, with a
    status other than 200 or with a body that lacks the marker; the backup
    is the one file the run has written. *)
Theorem exit_code_2_meaning (w w' : World) :
  run main w = (Ok 2%Z, w') ->
  exists (table : str) (status_code : Z) (body : str),
    euid w = 0%Z /\
    files w !! NMAP_OUI = Some table /\
    http w = Some (status_code, body) /\
    ~ (status_code = 200%Z /\ occurs_in marker body) /\
    files w' = <[backup_path w := table]> (files w) /\
    script w = (2%Z, w').
Proof.
  intros Hmain.
  assert (script w = (2%Z, w')) as Hscript by (unfold script; by rewrite Hmain).
  destruct (Z.eq_dec (euid w) 0%Z) as [Hroot|Hroot];
    [|by rewrite (main_run_not_root w Hroot) in Hmain].
  rewrite (main_run_root w Hroot) in Hmain.
  destruct (run backup_nmap_oui_file (emit banner_text w)) as [[bk|e] w1] eqn:Hb;
    [|done].
  pose proof (backup_nmap_oui_file_env _ _ _ Hb) as (_ & _ & _ & _ & Hhttp1 & _).
  apply backup_nmap_oui_file_files in Hb as (table & Htable & -> & Hf1).
  simpl in Hhttp1, Htable, Hf1.
  destruct (paths_of_program_dir w (emit banner_text w) eq_refl eq_refl)
    as (_ & _ & Hpb). rewrite Hpb in *. clear Hpb.
  destruct (run download_ieee_oui_file w1) as [[[]|e] w2] eqn:Hd; [| |done].
  - destruct (run (parse_oui_file (backup_path w)) w2) as [[[]|e] w3]; [| |done].
    + by destruct (run apply_updated_file w3) as [[[]|e] w4].
    + done.
  - injection Hmain as <-.
    pose proof (download_ieee_oui_file_false _ _ Hd) as (status_code & body & Hhttp & Hv).
    apply download_ieee_oui_file_cases in Hd as [_ [[[=] _] | (_ & Hf2 & _)]].
    exists table, status_code, body. rewrite Hhttp1 in Hhttp.
    repeat split; try done.
    + intros [-> Hocc%str_in_spec]. by rewrite Hocc in Hv.
    + by rewrite Hf2.
Qed.

(** The registry answers 404. *)
Lemma exit_code_2_meaning_witness :
  let w := sample_world sample_table (Some (404%Z, text "Not Found")) in
  exists (table : str) (status_code : Z) (body : str),
    euid w = 0%Z /\
    files w !! NMAP_OUI = Some table /\
    http w = Some (status_code, body) /\
    ~ (status_code = 200%Z /\ occurs_in marker body) /\
    files (run main w).2 = <[backup_path w := table]> (files w) /\
    script w = (2%Z, (run main w).2).
Proof.
  intros w. apply (exit_code_2_meaning w (run main w).2). vm_compute. reflexivity.
Defined.
